(** * Strike: the web code-snippet retriever of [strike.js]

    A shallow embedding of the cache store ([getCached], [setCached]), the
    retrying search ([fetchDuckDuckGo]), the snippet extractor
    ([fetchCodeSnippet]) and the orchestrator ([fetchCodeFromWeb]), with the
    platform functions they call (UTF-8 and base64 conversion of [Buffer],
    [path.join], the file operations of [fs-extra], [Promise.all]).

    The generator around it ([parseDescription], [verifyEnvironment],
    [safeExec], [setupFramework], [installDependencies] and [main]) is
    embedded as the trace of what it attempts on the project directory and
    on the machine.

    The non-interactive entry point has its own copy of the five functions;
    it differs in awaiting [fetchDuckDuckGo] directly, where [strike.js]
    awaits it through a [Promise.all] of one element, which is the same. *)

From stdpp Require Import gmap strings list.
From Stdlib Require Import ZArith Lia Ascii.

Set Warnings "-register-all".

Local Open Scope Z_scope.

(** ** JavaScript strings

    A JavaScript string is a sequence of UTF-16 code units; [s.length] and
    [s.slice] count code units.  A code unit is a [Z] read modulo [2^16]. *)

Abbreviation jsstring := (list Z).

Definition u16 (c : Z) : Z := c mod 65536.

Definition is_high (c : Z) : bool := (0xD800 <=? c) && (c <=? 0xDBFF).
Definition is_low (c : Z) : bool := (0xDC00 <=? c) && (c <=? 0xDFFF).

(** The code point of a surrogate pair. *)
Definition pair_point (hi lo : Z) : Z :=
  0x10000 + (hi - 0xD800) * 0x400 + (lo - 0xDC00).

(** An ASCII literal as a JavaScript string. *)
Definition js (s : string) : jsstring :=
  (fun a => Z.of_nat (Ascii.nat_of_ascii a)) <$> String.list_ascii_of_string s.

(** [String.prototype.isWellFormed]: every code unit is in range and no
    surrogate is unpaired. *)
Fixpoint well_formed (s : jsstring) : bool :=
  match s with
  | [] => true
  | c :: r =>
      (0 <=? c) && (c <? 65536) &&
      (if is_high c then
         match r with
         | d :: r' => is_low d && well_formed r'
         | [] => false
         end
       else negb (is_low c) && well_formed r)
  end.

(** [String.prototype.toWellFormed]: every unpaired surrogate becomes
    U+FFFD. *)
Fixpoint to_well_formed (s : jsstring) : jsstring :=
  match s with
  | [] => []
  | c :: r =>
      if is_high (u16 c) then
        match r with
        | d :: r' =>
            if is_low (u16 d) then u16 c :: u16 d :: to_well_formed r'
            else 0xFFFD :: to_well_formed r
        | [] => [0xFFFD]
        end
      else if is_low (u16 c) then 0xFFFD :: to_well_formed r
      else u16 c :: to_well_formed r
  end.

(** ** UTF-8, as [Buffer.from(string)] and [fs.writeFile(file, string)]
    produce it and [fs.readFile(file, "utf-8")] reads it *)

Definition utf8_scalar (cp : Z) : list Z :=
  if cp <? 0x80 then [cp]
  else if cp <? 0x800 then [0xC0 + cp / 64; 0x80 + cp mod 64]
  else if cp <? 0x10000 then
    [0xE0 + cp / 4096; 0x80 + (cp / 64) mod 64; 0x80 + cp mod 64]
  else
    [0xF0 + cp / 262144; 0x80 + (cp / 4096) mod 64;
     0x80 + (cp / 64) mod 64; 0x80 + cp mod 64].

Fixpoint utf8_encode (s : jsstring) : list Z :=
  match s with
  | [] => []
  | c :: r =>
      if is_high (u16 c) then
        match r with
        | d :: r' =>
            if is_low (u16 d)
            then utf8_scalar (pair_point (u16 c) (u16 d)) ++ utf8_encode r'
            else utf8_scalar 0xFFFD ++ utf8_encode r
        | [] => utf8_scalar 0xFFFD
        end
      else if is_low (u16 c) then utf8_scalar 0xFFFD ++ utf8_encode r
      else utf8_scalar (u16 c) ++ utf8_encode r
  end.

Definition is_cont (b : Z) : bool := (0x80 <=? b) && (b <=? 0xBF).

(** Bounds of the second byte of a three-byte and of a four-byte sequence. *)
Definition second3 (b0 b1 : Z) : bool :=
  ((if b0 =? 0xE0 then 0xA0 else 0x80) <=? b1) &&
  (b1 <=? (if b0 =? 0xED then 0x9F else 0xBF)).
Definition second4 (b0 b1 : Z) : bool :=
  ((if b0 =? 0xF0 then 0x90 else 0x80) <=? b1) &&
  (b1 <=? (if b0 =? 0xF4 then 0x8F else 0xBF)).

Definition point2 (b0 b1 : Z) : Z := (b0 - 0xC0) * 64 + (b1 - 0x80).
Definition point3 (b0 b1 b2 : Z) : Z :=
  (b0 - 0xE0) * 4096 + (b1 - 0x80) * 64 + (b2 - 0x80).
Definition point4 (b0 b1 b2 b3 : Z) : Z :=
  (b0 - 0xF0) * 262144 + (b1 - 0x80) * 4096 + (b2 - 0x80) * 64 + (b3 - 0x80).

Definition high_of (cp : Z) : Z := 0xD800 + (cp - 0x10000) / 0x400.
Definition low_of (cp : Z) : Z := 0xDC00 + (cp - 0x10000) mod 0x400.

(** The decoder replaces each maximal ill-formed subsequence by U+FFFD and
    resumes at the byte that broke the sequence.  A byte order mark is kept. *)
Fixpoint utf8_decode (bs : list Z) : jsstring :=
  match bs with
  | [] => []
  | b0 :: r0 =>
      if (0 <=? b0) && (b0 <? 0x80) then b0 :: utf8_decode r0
      else if (0xC2 <=? b0) && (b0 <=? 0xDF) then
        match r0 with
        | b1 :: r1 =>
            if is_cont b1 then point2 b0 b1 :: utf8_decode r1
            else 0xFFFD :: utf8_decode r0
        | [] => [0xFFFD]
        end
      else if (0xE0 <=? b0) && (b0 <=? 0xEF) then
        match r0 with
        | b1 :: r1 =>
            if second3 b0 b1 then
              match r1 with
              | b2 :: r2 =>
                  if is_cont b2 then point3 b0 b1 b2 :: utf8_decode r2
                  else 0xFFFD :: utf8_decode r1
              | [] => [0xFFFD]
              end
            else 0xFFFD :: utf8_decode r0
        | [] => [0xFFFD]
        end
      else if (0xF0 <=? b0) && (b0 <=? 0xF4) then
        match r0 with
        | b1 :: r1 =>
            if second4 b0 b1 then
              match r1 with
              | b2 :: r2 =>
                  if is_cont b2 then
                    match r2 with
                    | b3 :: r3 =>
                        if is_cont b3 then
                          high_of (point4 b0 b1 b2 b3)
                            :: low_of (point4 b0 b1 b2 b3) :: utf8_decode r3
                        else 0xFFFD :: utf8_decode r2
                    | [] => [0xFFFD]
                    end
                  else 0xFFFD :: utf8_decode r1
              | [] => [0xFFFD]
              end
            else 0xFFFD :: utf8_decode r0
        | [] => [0xFFFD]
        end
      else 0xFFFD :: utf8_decode r0
  end.

(** ** Base64, as [buffer.toString("base64")] produces it *)

Definition base64_alphabet : string :=
  "ABCDEFGHIJKLMNOPQRSTUVWXYZabcdefghijklmnopqrstuvwxyz0123456789+/".

Definition b64_char (i : Z) : ascii :=
  match String.get (Z.to_nat i) base64_alphabet with
  | Some c => c
  | None => "="%char
  end.

Fixpoint base64 (bs : list Z) : string :=
  match bs with
  | [] => ""
  | [a] =>
      String (b64_char (a / 4)) (String (b64_char (a mod 4 * 16)) "==")
  | [a; b] =>
      String (b64_char (a / 4))
        (String (b64_char (a mod 4 * 16 + b / 16))
           (String (b64_char (b mod 16 * 4)) "="))
  | a :: b :: c :: r =>
      String (b64_char (a / 4))
        (String (b64_char (a mod 4 * 16 + b / 16))
           (String (b64_char (b mod 16 * 4 + c / 64))
              (String (b64_char (c mod 64)) (base64 r))))
  end.

(** [Buffer.from(query).toString("base64")] *)
Definition cacheKey (query : jsstring) : string := base64 (utf8_encode query).

(** ** Errors and results *)

Inductive error :=
  | ENOENT      (* no such file or directory *)
  | ENOTDIR     (* a path component is a regular file *)
  | EISDIR      (* the path names a directory *)
  | ENAMETOOLONG (* a name of the path is longer than a name may be *)
  | URIError    (* encodeURIComponent on an unpaired surrogate *)
  | TypeError   (* fetch of a value that is not a URL *)
  | AbortError  (* the timer of fetchWithTimeout fired *)
  | FetchError  (* connection, DNS or HTTP failure, unreadable body *)
  | ParseError. (* the markup could not be loaded *)


Inductive result (A : Type) :=
  | Ok (a : A)
  | Throw (e : error).
Arguments Ok {A} a.
Arguments Throw {A} e.

(** ** The cache directory

    [cacheDir] is a directory tree; the program itself only ever creates
    regular files directly inside it.  The failures of the file system that
    depend on the path and on the tree are modelled, the refusal of a name
    of more than 255 bytes among them; those that depend on the machine
    (permissions, a full disk, a cache directory so deep in the file tree
    that the limit on the length of a whole path is reached) are not. *)

Inductive node :=
  | File (data : list Z)
  | Dir (entries : gmap string node).

(** The pieces of a relative path between slashes. *)
Fixpoint segments (s : string) : list string :=
  match s with
  | EmptyString => [EmptyString]
  | String c r =>
      if Ascii.eqb c "/" then EmptyString :: segments r
      else match segments r with
           | seg :: rest => String c seg :: rest
           | [] => [String c EmptyString]
           end
  end.

Definition nonempty_string (s : string) : bool :=
  match s with
  | EmptyString => false
  | String _ _ => true
  end.

(** [path.join(cacheDir, name)] relative to [cacheDir]: empty segments are
    dropped.  The names joined here contain no dot but in their suffix, so
    no segment is [.] or [..]. *)
Definition path_join (name : string) : list string :=
  List.filter nonempty_string (segments name).

Definition cacheFile (query : jsstring) : list string :=
  path_join (cacheKey query +:+ ".txt").

(** The longest name of a file or directory, in bytes; the names here are
    ASCII. *)
Definition NAME_MAX : nat := 255.

Definition name_too_long (s : string) : bool :=
  Nat.ltb NAME_MAX (String.length s).
Arguments name_too_long : simpl never.

(** The walk along a path, name by name: a name that is too long is
    refused where the walk meets it. *)
Fixpoint resolve (n : node) (p : list string) : result node :=
  match p with
  | [] => Ok n
  | s :: p' =>
      match n with
      | File _ => Throw ENOTDIR
      | Dir es =>
          if name_too_long s then Throw ENAMETOOLONG
          else
            match es !! s with
            | Some n' => resolve n' p'
            | None => Throw ENOENT
            end
      end
  end.

(** [open(path, "w")] followed by the write: the parent must be an existing
    directory and the target must not be a directory. *)
Fixpoint write_node (n : node) (p : list string) (bytes : list Z)
  : result node :=
  match p with
  | [] =>
      match n with
      | File _ => Ok (File bytes)
      | Dir _ => Throw EISDIR
      end
  | s :: p' =>
      match n with
      | File _ => Throw ENOTDIR
      | Dir es =>
          if name_too_long s then Throw ENAMETOOLONG
          else
            match es !! s with
            | Some n' =>
                match write_node n' p' bytes with
                | Ok n'' => Ok (Dir (<[s:=n'']> es))
                | Throw e => Throw e
                end
            | None =>
                match p' with
                | [] => Ok (Dir (<[s:=File bytes]> es))
                | _ :: _ => Throw ENOENT
                end
            end
      end
  end.

(** ** The world: cache directory, console and network traffic *)

Inductive message :=
  | FetchingFromWeb
  | UsingCached
  | SearchFailed
  | SnippetFailed (url : option jsstring)
  | CleaningCache
  | Terminated.

Inductive request :=
  | SearchRequest (text : jsstring)
  | PageRequest (url : jsstring).

Record world := World {
  cache : gmap string node;
  console : list message;
  requests : list request
}.

(** An async function: it may change the world, and returns or throws. *)
Definition M (A : Type) : Type := world -> result A * world.

Definition ret {A} (a : A) : M A := fun w => (Ok a, w).
Definition throw {A} (e : error) : M A := fun w => (Throw e, w).
Definition bind {A B} (m : M A) (k : A -> M B) : M B :=
  fun w =>
    match m w with
    | (Ok a, w') => k a w'
    | (Throw e, w') => (Throw e, w')
    end.
Definition try_catch {A} (m : M A) (handler : error -> M A) : M A :=
  fun w =>
    match m w with
    | (Ok a, w') => (Ok a, w')
    | (Throw e, w') => handler e w'
    end.

Declare Scope async_scope.
Delimit Scope async_scope with async.
Notation "x <- m ;; k" := (bind m (fun x => k))
  (at level 100, m at next level, right associativity) : async_scope.
Notation "m ;; k" := (bind m (fun _ => k))
  (at level 100, right associativity) : async_scope.
Local Open Scope async_scope.

Definition log (msg : message) : M unit :=
  fun w => (Ok tt, World (cache w) (console w ++ [msg]) (requests w)).

Definition send (r : request) : M unit :=
  fun w => (Ok tt, World (cache w) (console w) (requests w ++ [r])).

(** ** File operations of fs-extra on the cache directory *)

(** [fs.pathExists] turns every failure of the access check into [false]. *)
Definition pathExists (p : list string) : M bool :=
  fun w =>
    match resolve (Dir (cache w)) p with
    | Ok _ => (Ok true, w)
    | Throw _ => (Ok false, w)
    end.

Definition readFile (p : list string) : M jsstring :=
  fun w =>
    match resolve (Dir (cache w)) p with
    | Ok (File data) => (Ok (utf8_decode data), w)
    | Ok (Dir _) => (Throw EISDIR, w)
    | Throw e => (Throw e, w)
    end.

Definition writeFile (p : list string) (data : jsstring) : M unit :=
  fun w =>
    match write_node (Dir (cache w)) p (utf8_encode data) with
    | Ok (Dir es) => (Ok tt, World es (console w) (requests w))
    | Ok (File _) => (Throw EISDIR, w)
    | Throw e => (Throw e, w)
    end.

(** ** Caching system *)

Definition getCached (query : jsstring) : M (option jsstring) :=
  let file := cacheFile query in
  found <- pathExists file ;;
  if found then text <- readFile file ;; ret (Some text)
  else ret None.

Definition setCached (query : jsstring) (data : jsstring) : M unit :=
  let file := cacheFile query in
  writeFile file data.

(** ** The network

    What the network answers is a parameter of every call.  An attempt is
    the body of a [try] block: the fetch under its timeout, reading the
    body, loading the markup and collecting the selected elements.  It fails
    with the error thrown, or yields the collected items in document
    order. *)

Inductive attempt (A : Type) :=
  | Fails (e : error)
  | Yields (items : A).
Arguments Fails {A} e.
Arguments Yields {A} items.

(** An [href] attribute read by [attr] is [undefined] when the anchor has
    none. *)
Abbreviation link := (option jsstring).

Record network := Network {
  (* the [i]-th fetch of the result page for a search text: the [href] of
     every [a.result__a] *)
  search_page : jsstring -> nat -> attempt (list link);
  (* the [i]-th fetch of a page by the [k]-th extraction of the fan-out:
     the text of every element matching
     [code, pre, .code, .editor, .snippet] *)
  code_page : nat -> jsstring -> nat -> attempt (list jsstring);
  (* whether [fetch] takes the string for a URL it can send a request to,
     an absolute URL of a protocol it supports: on any other string it
     throws, as on [undefined], before anything is sent *)
  sendable : jsstring -> bool
}.

(** The URL the request for a link goes to, when [fetch] takes the link. *)
Definition target (net : network) (url : link) : option jsstring :=
  match url with
  | Some u => if sendable net u then Some u else None
  | None => None
  end.

Definition settle {A} (a : attempt A) : M A :=
  match a with
  | Fails e => throw e
  | Yields items => ret items
  end.

Definition nonempty {A} (l : list A) : bool :=
  match l with
  | [] => false
  | _ :: _ => true
  end.

(** ** Retrying search *)

(** [fetchWithTimeout] of the search URL, then [res.text()], [load] and the
    collection of the links.  [encodeURIComponent] throws on a text that is
    not well formed, before anything is sent. *)
Definition search_attempt (net : network) (query : jsstring) (i : nat)
  : M (list link) :=
  if well_formed query then
    send (SearchRequest query) ;;
    settle (search_page net query i)
  else throw URIError.

(** The loop [for (let i = 0; i <= retries; i++)] with [n] iterations to
    go.  The body yields [Some] of the value it returns from the function,
    or [None] to go on with the loop. *)
Fixpoint fetchDuckDuckGo_loop (net : network) (query : jsstring)
    (retries n i : nat) : M (list link) :=
  match n with
  | O => ret []
  | S n' =>
      r <- try_catch
             (links <- search_attempt net query i ;;
              if nonempty links then ret (Some (take 5 links))
              else ret None)
             (fun _ =>
                (if Nat.eqb i retries then log SearchFailed else ret tt) ;;
                ret None) ;;
      match r with
      | Some links => ret links
      | None => fetchDuckDuckGo_loop net query retries n' (S i)
      end
  end.

Definition fetchDuckDuckGo (net : network) (query : jsstring) (retries : nat)
  : M (list link) :=
  fetchDuckDuckGo_loop net query retries (S retries) 0%nat.

(** ** Snippet extractor *)

(** [codes.join("\n")] *)
Fixpoint join (codes : list jsstring) : jsstring :=
  match codes with
  | [] => []
  | [c] => c
  | c :: r => c ++ 10 :: join r
  end.

(** [if (codes.length) return codes.join("\n").slice(0, 5000)] *)
Definition snippet_of (codes : list jsstring) : option jsstring :=
  if nonempty codes then Some (take 5000 (join codes)) else None.

(** Sending the request of an attempt, and its completion.  [fetch] of
    [undefined], or of a string it does not take for a URL, throws without
    sending anything. *)
Definition page_send (net : network) (url : link) : M unit :=
  match target net url with
  | Some u => send (PageRequest u)
  | None => ret tt
  end.

Definition page_settle (net : network) (k : nat) (url : link) (i : nat)
  : M (list jsstring) :=
  match target net url with
  | Some u => settle (code_page net k u i)
  | None => throw TypeError
  end.

Definition snippet_catch (url : link) (retries i : nat) : M (option jsstring) :=
  (if Nat.eqb i retries then log (SnippetFailed url) else ret tt) ;;
  ret None.

(** [fetchCodeSnippet] run from its call to its return, as the [k]-th
    extraction of a fan-out. *)
Fixpoint fetchCodeSnippet_loop (net : network) (k : nat) (url : link)
    (retries n i : nat) : M jsstring :=
  match n with
  | O => ret []
  | S n' =>
      r <- try_catch
             (page_send net url ;;
              codes <- page_settle net k url i ;;
              ret (snippet_of codes))
             (fun _ => snippet_catch url retries i) ;;
      match r with
      | Some text => ret text
      | None => fetchCodeSnippet_loop net k url retries n' (S i)
      end
  end.

Definition fetchCodeSnippet (net : network) (k : nat) (url : link)
    (retries : nat) : M jsstring :=
  fetchCodeSnippet_loop net k url retries (S retries) 0%nat.

(** ** Fan-out: [Promise.all(urls.map((url) => fetchCodeSnippet(url)))]

    Every call runs up to its first [await], which sends its first request;
    from then on the extractions advance one at a time, each time the
    pending fetch of one of them completes.  The schedule lists, in order,
    which extraction advances. *)

Record task := Task {
  task_url : link;
  task_attempt : nat;              (* the loop counter [i] *)
  task_value : option jsstring     (* the value the promise resolved with *)
}.

(** The pending fetch of attempt [i] completes: the rest of the [try] block
    and the [catch] run, then the loop goes on to send the next request, or
    the function returns. *)
Definition task_step (net : network) (retries k : nat) (t : task) : M task :=
  match task_value t with
  | Some _ => ret t
  | None =>
      r <- try_catch
             (codes <- page_settle net k (task_url t) (task_attempt t) ;;
              ret (snippet_of codes))
             (fun _ => snippet_catch (task_url t) retries (task_attempt t)) ;;
      match r with
      | Some text => ret (Task (task_url t) (task_attempt t) (Some text))
      | None =>
          if Nat.ltb (task_attempt t) retries then
            page_send net (task_url t) ;;
            ret (Task (task_url t) (S (task_attempt t)) None)
          else ret (Task (task_url t) (task_attempt t) (Some []))
      end
  end.

(** [urls.map(...)]: the calls are made in the order of the array. *)
Fixpoint start_tasks (net : network) (urls : list link) : M (list task) :=
  match urls with
  | [] => ret []
  | url :: rest =>
      page_send net url ;;
      ts <- start_tasks net rest ;;
      ret (Task url 0 None :: ts)
  end.

Fixpoint run_schedule (net : network) (retries : nat) (sched : list nat)
    (ts : list task) : M (list task) :=
  match sched with
  | [] => ret ts
  | k :: rest =>
      match ts !! k with
      | Some t =>
          t' <- task_step net retries k t ;;
          run_schedule net retries rest (<[k:=t']> ts)
      | None => run_schedule net retries rest ts
      end
  end.

(** Every pending fetch completes in the end, by its timeout at the
    latest: after the given schedule, each extraction still running is
    advanced until it returns. *)
Definition drain (retries n : nat) : list nat :=
  mjoin ((fun k => replicate (S retries) k) <$> seq 0 n).

(** The array [Promise.all] resolves with holds the value of the [k]-th
    promise at index [k]. *)
Definition promise_values (ts : list task) : list jsstring :=
  (fun t => default [] (task_value t)) <$> ts.

Definition fan_out (net : network) (retries : nat) (sched : list nat)
    (urls : list link) : M (list jsstring) :=
  ts <- start_tasks net urls ;;
  ts' <- run_schedule net retries (sched ++ drain retries (length urls)) ts ;;
  ret (promise_values ts').

(** ** Orchestrator *)

(** A string is truthy when it is not empty; [null] is falsy. *)
Definition truthy (s : jsstring) : bool := nonempty s.

Definition valid_snippet (s : jsstring) : bool := Nat.ltb 200 (length s).

Definition search_suffix : jsstring := js " full project code".

(** The rest of [fetchCodeFromWeb] after the cache lookup: search, fan-out,
    selection and write-through. *)
Definition fetch_from_network (net : network) (sched : list nat)
    (description : jsstring) : M jsstring :=
  urls <- fetchDuckDuckGo net (description ++ search_suffix) 2 ;;
  snippets <- fan_out net 1 sched urls ;;
  match List.find valid_snippet snippets with
  | Some validSnippet =>
      if truthy validSnippet then
        setCached description validSnippet ;;
        ret validSnippet
      else ret []
  | None => ret []
  end.

Definition fetchCodeFromWeb (net : network) (sched : list nat)
    (description : jsstring) : M jsstring :=
  log FetchingFromWeb ;;
  cached <- getCached description ;;
  match cached with
  | Some text =>
      if truthy text then log UsingCached ;; ret text
      else fetch_from_network net sched description
  | None => fetch_from_network net sched description
  end.

(** ** The life of a cache directory

    The directory outlives the process.  Between its creation and any later
    moment, calls of [fetchCodeFromWeb] and interrupts (whose handler empties
    the directory) follow each other. *)

Definition on_SIGINT : M unit :=
  log CleaningCache ;;
  (fun w => (Ok tt, World ∅ (console w) (requests w))) ;;
  log Terminated.

Inductive event :=
  | Retrieve (net : network) (sched : list nat) (description : jsstring)
  | Interrupt.

Fixpoint run (events : list event) (w : world)
  : list (result jsstring) * world :=
  match events with
  | [] => ([], w)
  | Retrieve net sched description :: rest =>
      let (r, w') := fetchCodeFromWeb net sched description w in
      let (rs, w'') := run rest w' in
      (r :: rs, w'')
  | Interrupt :: rest => run rest (snd (on_SIGINT w))
  end.

(** The directory right after [fs.ensureDir] created it. *)
Definition fresh : world := World ∅ [] [].

(** ** Notions used in the statements *)

Definition is_byte (b : Z) : Prop := 0 <= b < 256.

(** The 64 characters of the alphabet are distinct, and none is the
    padding character. *)
Definition b64_distinct : bool :=
  forallb (fun n => forallb (fun m =>
      implb (Ascii.eqb (b64_char (Z.of_nat n)) (b64_char (Z.of_nat m)))
            (Nat.eqb n m)) (seq 0 64)
    && negb (Ascii.eqb (b64_char (Z.of_nat n)) "=")) (seq 0 64).

(** The world after some more messages or requests. *)
Definition with_console (ms : list message) (w : world) : world :=
  World (cache w) (console w ++ ms) (requests w).
Definition with_requests (rs : list request) (w : world) : world :=
  World (cache w) (console w) (requests w ++ rs).

(** The outcome of the [i]-th attempt of a search. *)
Definition search_outcome (net : network) (query : jsstring) (i : nat)
  : attempt (list link) :=
  if well_formed query then search_page net query i else Fails URIError.

Definition no_links (a : attempt (list link)) : bool :=
  match a with
  | Yields (_ :: _) => false
  | _ => true
  end.

Definition failed {A} (a : attempt A) : bool :=
  match a with
  | Fails _ => true
  | Yields _ => false
  end.

(** The requests [n] attempts of a search send. *)
Definition search_requests (query : jsstring) (n : nat) : list request :=
  if well_formed query then replicate n (SearchRequest query) else [].

(** The outcome of the [i]-th attempt of the [k]-th extraction. *)
Definition page_outcome (net : network) (k : nat) (url : link) (i : nat)
  : attempt (list jsstring) :=
  match target net url with
  | Some u => code_page net k u i
  | None => Fails TypeError
  end.

Definition page_requests (net : network) (url : link) : list request :=
  match target net url with
  | Some u => [PageRequest u]
  | None => []
  end.

(** The world after the [catch] of the [i]-th attempt of an extraction. *)
Definition after_attempt (net : network) (retries k : nat) (url : link)
    (i : nat) (w : world) : world :=
  with_console
    (if failed (page_outcome net k url i) && Nat.eqb i retries
     then [SnippetFailed url] else []) w.

(** The value an async call returns; [d] if it throws. *)
Definition returned {A} (d : A) (r : result A * world) : A :=
  match fst r with
  | Ok a => a
  | Throw _ => d
  end.

(** The snippet the [k]-th extraction yields for [url], and what its loop
    yields from iteration [i] on. *)
Definition extracted_from (net : network) (retries k : nat) (url : link)
    (n i : nat) : jsstring :=
  returned [] (fetchCodeSnippet_loop net k url retries n i fresh).

Definition extracted (net : network) (retries k : nat) (url : link)
  : jsstring :=
  returned [] (fetchCodeSnippet net k url retries fresh).

(** What the [k]-th extraction will have returned once it is through. *)
Definition task_final (net : network) (retries k : nat) (t : task) : jsstring :=
  match task_value t with
  | Some text => text
  | None =>
      extracted_from net retries k (task_url t)
        (S retries - task_attempt t) (task_attempt t)
  end.

(** The iterations a running extraction may still make. *)
Definition remaining (retries : nat) (t : task) : nat :=
  match task_value t with
  | Some _ => 0
  | None => S retries - task_attempt t
  end.

Definition task_ok (retries : nat) (t : task) : Prop :=
  task_value t = None -> (task_attempt t <= retries)%nat.

(** The result set of the search for a description, the snippets of its
    URLs in rank order, and the snippet [find] selects. *)
Definition search_links (net : network) (description : jsstring) : list link :=
  returned [] (fetchDuckDuckGo net (description ++ search_suffix) 2 fresh).

Definition snippets_of (net : network) (description : jsstring)
  : list jsstring :=
  imap (extracted net 1) (search_links net description).

Definition selected (net : network) (description : jsstring)
  : option jsstring :=
  List.find valid_snippet (snippets_of net description).

(** A text of more than 200 and at most 5000 code units, and a cache
    directory whose regular files all hold such a text. *)
Definition bounded_text (t : jsstring) : Prop :=
  (200 < length t <= 5000)%nat.

Definition bounded_cache (w : world) : Prop :=
  forall p data,
    resolve (Dir (cache w)) p = Ok (File data) ->
    bounded_text (utf8_decode data).

(** What a call may return: a text within the bounds, the empty text, or
    an error. *)
Definition within_bounds (r : result jsstring) : Prop :=
  match r with
  | Ok t => t = [] \/ bounded_text t
  | Throw _ => True
  end.

(** ** Networks and cache directories of the examples

    The links of the examples are short names that stand for absolute
    URLs: [fetch] takes every one of them, but in [relative_links]. *)

(** A search engine whose result page never has a result link. *)
Definition empty_pages : network :=
  Network (fun _ _ => Yields []) (fun _ _ _ => Fails FetchError)
    (fun _ => true).

(** A search engine that fails twice, then answers with six links. *)
Definition third_time_lucky : network :=
  Network
    (fun _ i =>
       if Nat.ltb i 2 then Fails AbortError
       else Yields ((fun c => Some [c]) <$> [97; 98; 99; 100; 101; 102]))
    (fun _ _ _ => Fails FetchError)
    (fun _ => true).

(** A search engine that is down. *)
Definition unreachable : network :=
  Network (fun _ _ => Fails FetchError) (fun _ _ _ => Fails FetchError)
    (fun _ => true).

(** Three result links whose pages hold code of 50, 300 and 900
    characters. *)
Definition three_results : network :=
  Network
    (fun _ _ => Yields [Some (js "u1"); Some (js "u2"); Some (js "u3")])
    (fun k _ _ =>
       match k with
       | O => Yields [replicate 50 97]
       | S O => Yields [replicate 300 98]
       | _ => Yields [replicate 900 99]
       end)
    (fun _ => true).

(** A cache directory holding an empty file, a directory, a text in place
    of the entry of the query [a]. *)
Definition empty_entry : world := World {[ "YQ==.txt" := File [] ]} [] [].
Definition directory_entry : world := World {[ "YQ==.txt" := Dir ∅ ]} [] [].
Definition text_entry : world :=
  World {[ "YQ==.txt" := File (utf8_encode (js "cached")) ]} [] [].

Local Close Scope Z_scope.

(** ** Notions used in the statements on the cache store and the traffic *)


(** A name without an empty piece: it does not begin or end with a slash
    and has no two slashes in a row.  [after_slash] tells whether the
    character before was a slash, or the name begins here. *)
Fixpoint clean_name (after_slash : bool) (s : string) : bool :=
  match s with
  | EmptyString => negb after_slash
  | String c r =>
      if Ascii.eqb c "/" then negb after_slash && clean_name true r
      else clean_name false r
  end.

Fixpoint has_slash (s : string) : bool :=
  match s with
  | EmptyString => false
  | String c r => Ascii.eqb c "/" || has_slash r
  end.

(** The pieces put together again. *)
Fixpoint unsegments (l : list string) : string :=
  match l with
  | [] => EmptyString
  | [s] => s
  | s :: r => s +:+ String "/" (unsegments r)
  end.

Definition small_byte (b : Z) : Prop := (0 <= b < 252)%Z.

(** A cache directory that holds regular files only. *)
Definition flat_cache (w : world) : Prop :=
  forall name n, cache w !! name = Some n -> exists data, n = File data.

(** The file of a query cannot be made in a directory of regular files:
    its key has a slash, or its name is too long. *)
Definition unstorable (query : jsstring) : bool :=
  has_slash (cacheKey query) || name_too_long (cacheKey query +:+ ".txt").

(** What [getCached] makes of the node a path leads to. *)
Definition read_view (n : node) (p : list string) : result (option (list Z)) :=
  match resolve n p with
  | Ok (File data) => Ok (Some data)
  | Ok (Dir _) => Throw EISDIR
  | Throw _ => Ok None
  end.

(** An attempt of an extraction that found no matching element, or
    failed. *)
Definition no_code (a : attempt (list jsstring)) : bool :=
  match a with
  | Yields (_ :: _) => false
  | _ => true
  end.

(** The requests [n] attempts of an extraction send. *)
Definition page_requests_n (net : network) (url : link) (n : nat)
  : list request :=
  mjoin (replicate n (page_requests net url)).

(** A page that cannot be fetched at first, then holds two code elements;
    a page whose only code element is empty. *)
Definition flaky_page : network :=
  Network (fun _ _ => Yields [])
    (fun _ _ i =>
       match i with
       | O => Fails AbortError
       | _ => Yields [js "let a;"; js "let b;"]
       end)
    (fun _ => true).

Definition empty_code_page : network :=
  Network (fun _ _ => Yields []) (fun _ _ _ => Yields [[]]) (fun _ => true).

(** Result links that are not absolute URLs, to pages that would hold
    code. *)
Definition relative_links : network :=
  Network
    (fun _ _ => Yields [Some (js "//host/l/?uddg=a"); Some (js "/page")])
    (fun _ _ _ => Yields [replicate 300 98%Z])
    (fun _ => false).

(** The requests a running extraction may still send after the one that
    is pending. *)
Definition budget (retries : nat) (t : task) : nat :=
  match task_value t with
  | Some _ => 0
  | None => retries - task_attempt t
  end.

(** A search engine that answers at the third attempt with five links to
    pages that cannot be fetched. *)
Definition worst_case : network :=
  Network
    (fun _ i =>
       if Nat.ltb i 2 then Fails AbortError
       else Yields ((fun c => Some [c]) <$> [97; 98; 99; 100; 101]%Z))
    (fun _ _ _ => Fails AbortError)
    (fun _ => true).

(** ** Parse description → structure *)

(** A regular expression with the flag [i] and without the flag [u]
    compares the upper-case forms of the characters, but never lets a
    character outside ASCII match one inside.  The patterns here are words
    of ASCII letters, so a character of the text matches a letter of the
    pattern exactly when it is that letter in either case. *)
Definition fold_case (c : Z) : Z :=
  if (97 <=? c)%Z && (c <=? 122)%Z then (c - 32)%Z else c.

(** The word matches at the start of the text. *)
Fixpoint matches_here (word text : jsstring) : bool :=
  match word, text with
  | [], _ => true
  | _ :: _, [] => false
  | p :: word', c :: text' =>
      (fold_case p =? fold_case c)%Z && matches_here word' text'
  end.

(** [/word/i.test(text)]: the word matches somewhere in the text. *)
Fixpoint regexp_test (word text : jsstring) : bool :=
  matches_here word text ||
  match text with
  | [] => false
  | _ :: text' => regexp_test word text'
  end.

Record structure := Structure {
  routes : list string;
  controllers : list string;
  pages : list string
}.

Definition parseDescription (description : jsstring) : structure :=
  let routes :=
    if regexp_test (js "route") description
       || regexp_test (js "routes") description
    then ["example"] else [] in
  let controllers :=
    if regexp_test (js "controller") description
       || regexp_test (js "controllers") description
    then ["main"] else [] in
  let pages := [] in
  let pages :=
    if regexp_test (js "dashboard") description
    then pages ++ ["dashboard"] else pages in
  let pages :=
    if regexp_test (js "login") description
    then pages ++ ["login"] else pages in
  Structure routes controllers pages.

(** ** The generator: what it does to the project and to the machine

    The generator is followed through what it attempts, in order: the
    directories and files of the project it asks for, the commands it
    runs, the lines it prints.  Whether an attempt fails is for the
    machine to decide; it is a parameter, a function of all that was
    attempted so far. *)

(** ** Frameworks and templates *)

Definition frameworks : list string :=
  ["Express"; "Fastify"; "Koa"; "Next.js"; "Vite"; "NestJS"; "Hapi";
   "Sapper"; "AdonisJS"; "FeathersJS"; "LoopBack"; "Flask"; "Django";
   "FastAPI"].

Definition templates : list string :=
  ["Bot"; "Dashboard"; "API"; "CLI Tool"; "Web Scraper";
   "Machine Learning Project"; "Microservice"].

Definition nodeDependencies : list string :=
  ["mongoose"; "sequelize"; "socket.io"; "graphql"; "apollo-server";
   "prisma"; "redis"; "bull"; "typeorm"; "jsonwebtoken"].

(** The text of a written file: one of the template literals of the
    source, named after the file it is for; a stub made for a route or a
    controller; or a text fetched from the web. *)
Inductive content :=
  | ExpressIndex | FastifyIndex | KoaIndex | HapiIndex
  | FlaskApp | FastapiMain
  | UserModel | PostModel | SocketService | GraphqlService | QueueService
  | AuthUtil
  | RouteStub (route : string)       (* export default function <route>Routes(app) {} *)
  | ControllerStub (ctrl : string)   (* export function <ctrl>Controller() {} *)
  | Fetched (text : jsstring).

(** The command of an [execa] call: a program found on the search path, or
    a file of the project. *)
Inductive program :=
  | OnPath (name : string)
  | InProject (path : list string).

(** The lines the generator prints. *)
Inductive notice :=
  | Started
  | NodeNotFound
  | PythonNotFound
  | CommandFailed (command : program) (args : list string)
  | SettingUp (framework : string)
  | NotImplemented (framework : string)
  | SetupFailed (framework : string)
  | InstallingSelected
  | Installing (dep : string)
  | SelectedInstalled
  | Created (framework : string)
  | Location.

(** Paths of files and directories are relative to the project directory
    [strike-project]; the empty path is the project directory. *)
Inductive action :=
  | EnsureDir (path : list string)
  | EmptyDir (path : list string)
  | WriteFile (path : list string) (text : content)
  | Execa (command : program) (args : list string) (inProject : bool)
  | Print (line : notice).

Inductive exception :=
  | FsError
  | ExecaError
  | CacheError (e : error).

Record system := System {
  retriever : world;
  history : list action
}.

Inductive outcome (A : Type) :=
  | Returns (a : A)
  | Throws (e : exception)
  | Exits (code : nat).
Arguments Returns {A} a.
Arguments Throws {A} e.
Arguments Exits {A} code.

(** The machine: given all that was attempted, the last attempt included,
    does the last attempt fail? *)
Abbreviation machine := (list action -> bool).

Definition G (A : Type) : Type := system -> outcome A * system.

Definition greturn {A} (a : A) : G A := fun s => (Returns a, s).
Definition gbind {A B} (m : G A) (k : A -> G B) : G B :=
  fun s =>
    match m s with
    | (Returns a, s') => k a s'
    | (Throws e, s') => (Throws e, s')
    | (Exits code, s') => (Exits code, s')
    end.
Definition gcatch {A} (m : G A) (handler : exception -> G A) : G A :=
  fun s =>
    match m s with
    | (Throws e, s') => handler e s'
    | r => r
    end.
Definition exit {A} (code : nat) : G A := fun s => (Exits code, s).

Declare Scope generator_scope.
Delimit Scope generator_scope with generator.
Notation "x <- m ;; k" := (gbind m (fun x => k))
  (at level 100, m at next level, right associativity) : generator_scope.
Notation "m ;; k" := (gbind m (fun _ => k))
  (at level 100, right associativity) : generator_scope.

(** An attempt on the file system or of a command. *)
Definition attempt_action (fails : machine) (a : action) (e : exception)
  : G unit :=
  fun s =>
    let h := history s ++ [a] in
    if fails h then (Throws e, System (retriever s) h)
    else (Returns tt, System (retriever s) h).

Definition print (line : notice) : G unit :=
  fun s => (Returns tt, System (retriever s) (history s ++ [Print line])).

(** An async function of the retriever, run by the generator. *)
Definition lift {A} (m : M A) : G A :=
  fun s =>
    match m (retriever s) with
    | (Ok a, w) => (Returns a, System w (history s))
    | (Throw e, w) => (Throws (CacheError e), System w (history s))
    end.

Section Generator.
Variable fails : machine.

Local Open Scope generator_scope.

Definition ensureDir (path : list string) : G unit :=
  attempt_action fails (EnsureDir path) FsError.
Definition emptyDir (path : list string) : G unit :=
  attempt_action fails (EmptyDir path) FsError.
Definition write (path : list string) (text : content) : G unit :=
  attempt_action fails (WriteFile path text) FsError.
Definition execa (command : program) (args : list string) (inProject : bool)
  : G unit :=
  attempt_action fails (Execa command args inProject) ExecaError.

(** ** Safe exec wrapper *)

Definition safeExec (command : program) (args : list string)
    (inProject : bool) : G unit :=
  gcatch (execa command args inProject)
         (fun _ => print (CommandFailed command args)).

(** ** Environment check *)

Definition verifyEnvironment : G unit :=
  gcatch (execa (OnPath "node") ["-v"] false)
         (fun _ => print NodeNotFound ;; exit 1) ;;
  gcatch (execa (OnPath "python") ["--version"] false)
         (fun _ => print PythonNotFound).

(** ** Framework setup *)

(** [toLowerCase] on code units below 256: the letters [A] to [Z] and the
    capital letters of Latin-1 move by 32. *)
Definition lower (c : ascii) : ascii :=
  let n := nat_of_ascii c in
  if (Nat.leb 65 n && Nat.leb n 90)
     || (Nat.leb 192 n && Nat.leb n 222 && negb (Nat.eqb n 215))
  then ascii_of_nat (n + 32) else c.

Fixpoint toLowerCase (s : string) : string :=
  match s with
  | EmptyString => EmptyString
  | String c r => String (lower c) (toLowerCase r)
  end.

Definition indexPath : list string := ["index.js"].

Definition setupFramework (framework : string) : G unit :=
  let fw := toLowerCase framework in
  print (SettingUp framework) ;;
  gcatch
    (if String.eqb fw "express" then
       write indexPath ExpressIndex ;;
       safeExec (OnPath "npm") ["install"; "express"] true
     else if String.eqb fw "fastify" then
       write indexPath FastifyIndex ;;
       safeExec (OnPath "npm") ["install"; "fastify"] true
     else if String.eqb fw "koa" then
       write indexPath KoaIndex ;;
       safeExec (OnPath "npm") ["install"; "koa"; "@koa/router"] true
     else if String.eqb fw "next.js" then
       safeExec (OnPath "npx") ["create-next-app@latest"; "next-app"] true
     else if String.eqb fw "vite" then
       safeExec (OnPath "npm") ["create"; "vite@latest"; "vite-app"] true
     else if String.eqb fw "nestjs" then
       safeExec (OnPath "npx") ["@nestjs/cli"; "new"; "nestjs-app"] true
     else if String.eqb fw "hapi" then
       write indexPath HapiIndex ;;
       safeExec (OnPath "npm") ["install"; "@hapi/hapi"] true
     else if String.eqb fw "flask" then
       write ["app.py"] FlaskApp ;;
       safeExec (OnPath "python") ["-m"; "venv"; "venv"] true ;;
       safeExec (InProject ["venv"; "Scripts"; "pip"]) ["install"; "flask"]
         true
     else if String.eqb fw "django" then
       safeExec (OnPath "pip") ["install"; "django"] true ;;
       safeExec (OnPath "django-admin") ["startproject"; "django_app"; "."]
         true
     else if String.eqb fw "fastapi" then
       write ["main.py"] FastapiMain ;;
       safeExec (OnPath "python") ["-m"; "venv"; "venv"] true ;;
       safeExec (InProject ["venv"; "Scripts"; "pip"])
         ["install"; "fastapi"; "uvicorn"] true
     else print (NotImplemented framework))
    (fun _ => print (SetupFailed framework)).

(** ** Install optional dependencies *)

Definition includes (deps : list string) (dep : string) : bool :=
  existsb (String.eqb dep) deps.

Fixpoint ensureDirs (folders : list string) : G unit :=
  match folders with
  | [] => greturn tt
  | folder :: rest => ensureDir [folder] ;; ensureDirs rest
  end.

Fixpoint installEach (deps : list string) : G unit :=
  match deps with
  | [] => greturn tt
  | dep :: rest =>
      print (Installing dep) ;;
      safeExec (OnPath "npm") ["install"; dep] true ;;
      installEach rest
  end.

Definition when (b : bool) (m : G unit) : G unit :=
  if b then m else greturn tt.

Definition installDependencies (selectedDeps : list string) : G unit :=
  print InstallingSelected ;;
  ensureDirs ["models"; "services"; "middleware"; "utils"] ;;
  when (includes selectedDeps "mongoose")
    (write ["models"; "user.js"] UserModel) ;;
  when (includes selectedDeps "sequelize")
    (write ["models"; "post.js"] PostModel) ;;
  when (includes selectedDeps "socket.io")
    (write ["services"; "socket.js"] SocketService) ;;
  when (includes selectedDeps "graphql"
        || includes selectedDeps "apollo-server")
    (write ["services"; "graphql.js"] GraphqlService) ;;
  when (includes selectedDeps "redis" || includes selectedDeps "bull")
    (write ["services"; "queue.js"] QueueService) ;;
  when (includes selectedDeps "jsonwebtoken")
    (write ["utils"; "auth.js"] AuthUtil) ;;
  installEach selectedDeps ;;
  print SelectedInstalled.

(** ** Main CLI *)

(** The answers of the four prompts. *)
Record answers := Answers {
  framework : string;
  template : string;
  description : jsstring;
  dependencies : list string
}.

(** [codeSnippet || stub] *)
Definition snippet_or (codeSnippet : jsstring) (stub : content) : content :=
  if truthy codeSnippet then Fetched codeSnippet else stub.

Fixpoint writeRoutes (rs : list string) (codeSnippet : jsstring) : G unit :=
  match rs with
  | [] => greturn tt
  | route :: rest =>
      write ["routes"; route +:+ ".js"]
        (snippet_or codeSnippet (RouteStub route)) ;;
      writeRoutes rest codeSnippet
  end.

Fixpoint writeControllers (cs : list string) (codeSnippet : jsstring)
  : G unit :=
  match cs with
  | [] => greturn tt
  | ctrl :: rest =>
      write ["controllers"; ctrl +:+ ".js"]
        (snippet_or codeSnippet (ControllerStub ctrl)) ;;
      writeControllers rest codeSnippet
  end.

Definition main (net : network) (sched : list nat) (given : answers)
  : G unit :=
  print Started ;;
  verifyEnvironment ;;
  ensureDir [] ;;
  emptyDir [] ;;
  let structure := parseDescription (description given) in
  when (nonempty (routes structure)) (ensureDir ["routes"]) ;;
  when (nonempty (controllers structure)) (ensureDir ["controllers"]) ;;
  codeSnippet <- lift (fetchCodeFromWeb net sched (description given)) ;;
  writeRoutes (routes structure) codeSnippet ;;
  writeControllers (controllers structure) codeSnippet ;;
  setupFramework (framework given) ;;
  installDependencies (dependencies given) ;;
  print (Created (framework given)) ;;
  print Location.
End Generator.

(** A machine on which nothing fails, and the start of a run. *)
Definition sound : machine := fun _ => false.
Definition boot : system := System fresh [].

(** What a run has added to the history. *)
Definition added (before after : system) : list action :=
  drop (length (history before)) (history after).

Definition is_command (a : action) : bool :=
  match a with
  | Execa _ _ _ => true
  | _ => false
  end.

Definition is_write (a : action) : bool :=
  match a with
  | WriteFile _ _ => true
  | _ => false
  end.

Definition commands_in (h : list action) : list action :=
  List.filter is_command h.

Definition writes_in (h : list action) : list action :=
  List.filter is_write h.

(** The four frameworks of the menu that [setupFramework] has no case
    for. *)
Definition unimplemented : list string :=
  ["Sapper"; "AdonisJS"; "FeathersJS"; "LoopBack"].

(** A stage that returns, or throws [FsError]; it leaves the retriever
    alone, and what it adds to the history has the property [P]. *)
Definition mild (P : list action -> Prop) (m : G unit) : Prop :=
  forall s, exists h,
    P h /\
    (m s = (Returns tt, System (retriever s) (history s ++ h)) \/
     m s = (Throws FsError, System (retriever s) (history s ++ h))).

Definition no_command (h : list action) : Prop := commands_in h = [].
Definition no_write (h : list action) : Prop := writes_in h = [].
Definition anything (h : list action) : Prop := True.

Definition npm_install (dep : string) : action :=
  Execa (OnPath "npm") ["install"; dep] true.

(** What a function made of file-system stages and then of commands
    does: it returns having run the commands [L], or throws [FsError]
    having run none. *)
Definition installs (s : system) (L : list action)
    (r : outcome unit * system) : Prop :=
  match r with
  | (Returns _, s') =>
      exists h, history s' = history s ++ h /\ commands_in h = L
  | (Throws e, s') =>
      e = FsError /\ exists h, history s' = history s ++ h /\ commands_in h = []
  | (Exits _, _) => False
  end.

(** The rest of [main] once the snippet is fetched. *)
Definition main_rest (fails : machine) (given : answers)
    (codeSnippet : jsstring) : G unit :=
  let structure := parseDescription (description given) in
  (writeRoutes fails (routes structure) codeSnippet ;;
   writeControllers fails (controllers structure) codeSnippet ;;
   setupFramework fails (framework given) ;;
   installDependencies fails (dependencies given) ;;
   print (Created (framework given)) ;;
   print Location)%generator.

(** How [main] begins: its first line, and the check for Node.js. *)
Definition node_check : list action :=
  [Print Started; Execa (OnPath "node") ["-v"] false].

Local Open Scope Z_scope.

(** * Text encodings *)

Example cacheKey_a : cacheKey (js "a") = "YQ==".
Proof. reflexivity. Qed.

Example cacheKey_hello : cacheKey (js "hello world") = "aGVsbG8gd29ybGQ=".
Proof. reflexivity. Qed.

(** U+1F600 is the surrogate pair D83D DE00, and F0 9F 98 80 in UTF-8. *)
Example utf8_pair : utf8_encode [0xD83D; 0xDE00] = [0xF0; 0x9F; 0x98; 0x80].
Proof. reflexivity. Qed.

Example utf8_lone : utf8_encode [0xD83D] = [0xEF; 0xBF; 0xBD].
Proof. reflexivity. Qed.

Ltac bool_lia :=
  unfold is_high, is_low, is_cont, second3, second4, u16 in *;
  repeat match goal with
  | |- context [ (?a =? ?b) ] => destruct (Z.eqb_spec a b)
  | |- context [ (?a <=? ?b) ] => destruct (Z.leb_spec a b)
  | |- context [ (?a <? ?b) ] => destruct (Z.ltb_spec a b)
  end; simpl; try reflexivity; try (exfalso; Z.div_mod_to_equations; lia).

Lemma utf8_decode_1 b r :
  0 <= b < 0x80 -> utf8_decode (b :: r) = b :: utf8_decode r.
Proof.
  intros H. remember (utf8_decode r) as d. simpl.
  replace ((0 <=? b) && (b <? 128)) with true by (symmetry; bool_lia).
  subst; reflexivity.
Qed.

Lemma utf8_decode_2 b0 b1 r :
  0xC2 <= b0 <= 0xDF -> 0x80 <= b1 <= 0xBF ->
  utf8_decode (b0 :: b1 :: r) = point2 b0 b1 :: utf8_decode r.
Proof.
  intros H0 H1. remember (b1 :: r) as r0. simpl.
  replace ((0 <=? b0) && (b0 <? 128)) with false by (symmetry; bool_lia).
  replace ((194 <=? b0) && (b0 <=? 223)) with true by (symmetry; bool_lia).
  subst r0. cbv beta match.
  replace (is_cont b1) with true by (symmetry; bool_lia).
  reflexivity.
Qed.

Lemma utf8_decode_3 b0 b1 b2 r :
  0xE0 <= b0 <= 0xEF -> 0x80 <= b1 <= 0xBF -> 0x80 <= b2 <= 0xBF ->
  (b0 = 0xE0 -> 0xA0 <= b1) -> (b0 = 0xED -> b1 <= 0x9F) ->
  utf8_decode (b0 :: b1 :: b2 :: r) = point3 b0 b1 b2 :: utf8_decode r.
Proof.
  intros H0 H1 H2 H3 H4. remember (b1 :: b2 :: r) as r0. simpl.
  replace ((0 <=? b0) && (b0 <? 128)) with false by (symmetry; bool_lia).
  replace ((194 <=? b0) && (b0 <=? 223)) with false by (symmetry; bool_lia).
  replace ((224 <=? b0) && (b0 <=? 239)) with true by (symmetry; bool_lia).
  subst r0. cbv beta match.
  replace (second3 b0 b1) with true by (symmetry; bool_lia).
  replace (is_cont b2) with true by (symmetry; bool_lia).
  reflexivity.
Qed.

Lemma utf8_decode_4 b0 b1 b2 b3 r :
  0xF0 <= b0 <= 0xF4 -> 0x80 <= b1 <= 0xBF -> 0x80 <= b2 <= 0xBF ->
  0x80 <= b3 <= 0xBF ->
  (b0 = 0xF0 -> 0x90 <= b1) -> (b0 = 0xF4 -> b1 <= 0x8F) ->
  utf8_decode (b0 :: b1 :: b2 :: b3 :: r) =
  high_of (point4 b0 b1 b2 b3) :: low_of (point4 b0 b1 b2 b3) :: utf8_decode r.
Proof.
  intros H0 H1 H2 H3 H4 H5. remember (b1 :: b2 :: b3 :: r) as r0. simpl.
  replace ((0 <=? b0) && (b0 <? 128)) with false by (symmetry; bool_lia).
  replace ((194 <=? b0) && (b0 <=? 223)) with false by (symmetry; bool_lia).
  replace ((224 <=? b0) && (b0 <=? 239)) with false by (symmetry; bool_lia).
  replace ((240 <=? b0) && (b0 <=? 244)) with true by (symmetry; bool_lia).
  subst r0. cbv beta match.
  replace (second4 b0 b1) with true by (symmetry; bool_lia).
  replace (is_cont b2) with true by (symmetry; bool_lia).
  replace (is_cont b3) with true by (symmetry; bool_lia).
  reflexivity.
Qed.

Ltac div_lia := Z.div_mod_to_equations; lia.

Lemma utf8_decode_scalar cp r :
  0 <= cp < 0x10000 -> ~ (0xD800 <= cp <= 0xDFFF) ->
  utf8_decode (utf8_scalar cp ++ r) = cp :: utf8_decode r.
Proof.
  intros Hr Hs. unfold utf8_scalar.
  destruct (Z.ltb_spec cp 0x80); [apply utf8_decode_1; lia |].
  destruct (Z.ltb_spec cp 0x800).
  { cbn [app]. rewrite utf8_decode_2 by div_lia.
    f_equal. unfold point2. div_lia. }
  destruct (Z.ltb_spec cp 0x10000); [| lia].
  cbn [app]. rewrite utf8_decode_3 by div_lia.
  f_equal. unfold point3. div_lia.
Qed.

Lemma utf8_decode_pair hi lo r :
  0xD800 <= hi <= 0xDBFF -> 0xDC00 <= lo <= 0xDFFF ->
  utf8_decode (utf8_scalar (pair_point hi lo) ++ r) = hi :: lo :: utf8_decode r.
Proof.
  intros Hh Hl. unfold utf8_scalar.
  assert (0x10000 <= pair_point hi lo <= 0x10FFFF) by (unfold pair_point; lia).
  destruct (Z.ltb_spec (pair_point hi lo) 0x80); [lia |].
  destruct (Z.ltb_spec (pair_point hi lo) 0x800); [lia |].
  destruct (Z.ltb_spec (pair_point hi lo) 0x10000); [lia |].
  cbn [app]. rewrite utf8_decode_4 by div_lia.
  f_equal; [| f_equal]; unfold high_of, low_of, point4, pair_point in *; div_lia.
Qed.

Lemma utf8_decode_replacement r :
  utf8_decode (utf8_scalar 0xFFFD ++ r) = 0xFFFD :: utf8_decode r.
Proof. apply utf8_decode_scalar; lia. Qed.

Lemma u16_range c : 0 <= u16 c < 65536.
Proof. unfold u16. div_lia. Qed.

Lemma is_high_spec c : is_high c = true <-> 0xD800 <= c <= 0xDBFF.
Proof. unfold is_high. rewrite andb_true_iff, !Z.leb_le. tauto. Qed.
Lemma is_low_spec c : is_low c = true <-> 0xDC00 <= c <= 0xDFFF.
Proof. unfold is_low. rewrite andb_true_iff, !Z.leb_le. tauto. Qed.

Lemma pairwise_ind (P : jsstring -> Prop) :
  P [] ->
  (forall c r, P r -> (forall d r', r = d :: r' -> P r') -> P (c :: r)) ->
  forall s, P s.
Proof.
  intros Hnil Hcons s.
  assert (P s /\ forall d r', s = d :: r' -> P r') as [H _]; [| exact H].
  induction s as [| c r [IH1 IH2]].
  - split; [exact Hnil | discriminate].
  - split.
    + apply Hcons; assumption.
    + intros d r' [= -> ->]. exact IH1.
Qed.

Theorem utf8_decode_encode s : utf8_decode (utf8_encode s) = to_well_formed s.
Proof.
  induction s as [| c r IH1 IH2] using pairwise_ind; [reflexivity |].
  cbn [utf8_encode to_well_formed].
  pose proof (u16_range c) as Hc.
  destruct (is_high (u16 c)) eqn:Hh.
  - apply is_high_spec in Hh. destruct r as [| d r'].
    + apply (utf8_decode_replacement []).
    + destruct (is_low (u16 d)) eqn:Hl.
      * apply is_low_spec in Hl. rewrite utf8_decode_pair by assumption.
        rewrite (IH2 d r' eq_refl). reflexivity.
      * rewrite utf8_decode_replacement, IH1. reflexivity.
  - destruct (is_low (u16 c)) eqn:Hl.
    + rewrite utf8_decode_replacement, IH1. reflexivity.
    + rewrite utf8_decode_scalar, IH1; [reflexivity | lia |].
      intros Hs. destruct (Z.le_gt_cases (u16 c) 0xDBFF).
      * assert (is_high (u16 c) = true) by (apply is_high_spec; lia). congruence.
      * assert (is_low (u16 c) = true) by (apply is_low_spec; lia). congruence.
Qed.

Lemma to_well_formed_id s : well_formed s = true -> to_well_formed s = s.
Proof.
  induction s as [| c r IH1 IH2] using pairwise_ind; [reflexivity |].
  cbn [well_formed to_well_formed]. rewrite !andb_true_iff, Z.leb_le, Z.ltb_lt.
  intros [[H0 H1] H].
  assert (u16 c = c) as -> by (unfold u16; apply Z.mod_small; lia).
  destruct (is_high c).
  - destruct r as [| d r']; [discriminate |].
    apply andb_true_iff in H as [Hl Hw].
    assert (u16 d = d) as ->.
    { apply is_low_spec in Hl. unfold u16; apply Z.mod_small; lia. }
    rewrite Hl, (IH2 d r' eq_refl Hw). reflexivity.
  - apply andb_true_iff in H as [Hl Hw]. apply negb_true_iff in Hl.
    rewrite Hl, (IH1 Hw). reflexivity.
Qed.

Lemma length_to_well_formed s : length (to_well_formed s) = length s.
Proof.
  induction s as [| c r IH1 IH2] using pairwise_ind; [reflexivity |].
  cbn [to_well_formed].
  destruct (is_high (u16 c)).
  - destruct r as [| d r']; [reflexivity |].
    destruct (is_low (u16 d)); cbn [length].
    + rewrite (IH2 d r' eq_refl). reflexivity.
    + rewrite IH1. reflexivity.
  - destruct (is_low (u16 c)); cbn [length]; rewrite IH1; reflexivity.
Qed.

Theorem utf8_encode_inj s1 s2 :
  well_formed s1 = true -> well_formed s2 = true ->
  utf8_encode s1 = utf8_encode s2 -> s1 = s2.
Proof.
  intros H1 H2 He.
  rewrite <- (to_well_formed_id s1 H1), <- (to_well_formed_id s2 H2).
  rewrite <- !utf8_decode_encode, He. reflexivity.
Qed.

Lemma utf8_scalar_bytes cp :
  0 <= cp < 0x110000 -> Forall is_byte (utf8_scalar cp).
Proof.
  intros H. unfold utf8_scalar, is_byte.
  destruct (Z.ltb_spec cp 0x80); [| destruct (Z.ltb_spec cp 0x800);
    [| destruct (Z.ltb_spec cp 0x10000)]];
    repeat constructor; div_lia.
Qed.

Lemma utf8_encode_bytes s : Forall is_byte (utf8_encode s).
Proof.
  induction s as [| c r IH1 IH2] using pairwise_ind; [constructor |].
  cbn [utf8_encode]. pose proof (u16_range c) as Hc.
  destruct (is_high (u16 c)) eqn:Hh.
  - apply is_high_spec in Hh. destruct r as [| d r'].
    + apply utf8_scalar_bytes; lia.
    + destruct (is_low (u16 d)) eqn:Hl.
      * apply is_low_spec in Hl. apply Forall_app. split; [| eauto].
        apply utf8_scalar_bytes. unfold pair_point. lia.
      * apply Forall_app. split; [apply utf8_scalar_bytes; lia | assumption].
  - destruct (is_low (u16 c)); apply Forall_app;
      (split; [apply utf8_scalar_bytes; lia | assumption]).
Qed.

Lemma b64_distinct_true : b64_distinct = true.
Proof. vm_compute. reflexivity. Qed.

Lemma b64_char_inj i j :
  0 <= i < 64 -> 0 <= j < 64 -> b64_char i = b64_char j -> i = j.
Proof.
  intros Hi Hj He. pose proof b64_distinct_true as H.
  unfold b64_distinct in H. rewrite forallb_forall in H.
  specialize (H (Z.to_nat i)). rewrite andb_true_iff, forallb_forall in H.
  destruct H as [H _]; [apply in_seq; lia |].
  specialize (H (Z.to_nat j)). rewrite !Z2Nat.id in H by lia.
  rewrite He, Ascii.eqb_refl in H. cbn [implb] in H.
  apply Nat.eqb_eq in H; [lia | apply in_seq; lia].
Qed.

Lemma b64_char_pad i : 0 <= i < 64 -> b64_char i <> "="%char.
Proof.
  intros Hi He. pose proof b64_distinct_true as H.
  unfold b64_distinct in H. rewrite forallb_forall in H.
  specialize (H (Z.to_nat i)). rewrite andb_true_iff in H.
  destruct H as [_ H]; [apply in_seq; lia |].
  rewrite Z2Nat.id, He in H by lia. discriminate.
Qed.

Lemma base64_inj_le n : forall l1 l2,
  (length l1 <= n)%nat -> Forall is_byte l1 -> Forall is_byte l2 ->
  base64 l1 = base64 l2 -> l1 = l2.
Proof.
  unfold is_byte.
  induction n as [| n IH]; intros l1 l2 Hn H1 H2 He.
  - destruct l1; [| cbn in Hn; lia].
    destruct l2 as [| a [| b [| c r]]]; [reflexivity | discriminate ..].
  - destruct l1 as [| a1 [| b1 [| c1 r1]]];
      destruct l2 as [| a2 [| b2 [| c2 r2]]];
      try reflexivity; try discriminate;
      cbn [base64] in He;
      repeat match goal with
      | H : Forall _ (_ :: _) |- _ => apply Forall_cons in H as [? H]
      end;
      repeat match goal with
      | H : String _ _ = String _ _ |- _ => injection H as ? H
      | H : String _ _ = EmptyString |- _ => discriminate H
      | H : EmptyString = String _ _ |- _ => discriminate H
      end;
      repeat match goal with
      | H : b64_char _ = b64_char _ |- _ =>
          apply b64_char_inj in H; [| div_lia ..]
      | H : b64_char _ = "="%char |- _ =>
          exfalso; revert H; apply b64_char_pad; div_lia
      | H : "="%char = b64_char _ |- _ =>
          exfalso; symmetry in H; revert H; apply b64_char_pad; div_lia
      end.
    + f_equal; div_lia.
    + f_equal; [| f_equal]; div_lia.
    + assert (r1 = r2) as ->.
      { apply IH; [cbn in Hn; lia | assumption ..]. }
      f_equal; [| f_equal; [| f_equal]]; div_lia.
Qed.

Lemma base64_inj l1 l2 :
  Forall is_byte l1 -> Forall is_byte l2 -> base64 l1 = base64 l2 -> l1 = l2.
Proof. apply (base64_inj_le (length l1)). lia. Qed.

Theorem cacheKey_inj q1 q2 :
  well_formed q1 = true -> well_formed q2 = true ->
  cacheKey q1 = cacheKey q2 -> q1 = q2.
Proof.
  intros H1 H2 He. apply utf8_encode_inj; [assumption .. |].
  apply base64_inj; [apply utf8_encode_bytes .. | exact He].
Qed.

(** * The cache directory *)

Lemma resolve_write_node p : forall n n' bytes,
  write_node n p bytes = Ok n' -> resolve n' p = Ok (File bytes).
Proof.
  induction p as [| s p IH]; intros n n' bytes H; cbn in *.
  - destruct n; [injection H as <-; reflexivity | discriminate].
  - destruct n as [| es]; [discriminate |].
    destruct (name_too_long s) eqn:Hl; [discriminate |].
    destruct (es !! s) as [n0 |] eqn:Hs.
    + destruct (write_node n0 p bytes) as [n1 | e] eqn:Hw; [| discriminate].
      injection H as <-. cbn. rewrite lookup_insert_eq. eauto.
    + destruct p; [| discriminate]. injection H as <-.
      cbn. rewrite lookup_insert_eq. reflexivity.
Qed.

Lemma write_node_dir p : forall es n' bytes,
  write_node (Dir es) p bytes = Ok n' -> exists es', n' = Dir es'.
Proof.
  intros es n' bytes H. destruct p as [| s p]; cbn in H; [discriminate |].
  destruct (name_too_long s); [discriminate |].
  destruct (es !! s) as [n0 |].
  - destruct (write_node n0 p bytes); [| discriminate].
    injection H as <-. eauto.
  - destruct p; [| discriminate]. injection H as <-. eauto.
Qed.

(** Overwriting an existing regular file succeeds. *)
Lemma write_node_existing p : forall n data bytes,
  resolve n p = Ok (File data) -> exists n', write_node n p bytes = Ok n'.
Proof.
  induction p as [| s p IH]; intros n data bytes H; cbn in *.
  - injection H as ->. eauto.
  - destruct n as [| es]; [discriminate |].
    destruct (name_too_long s); [discriminate |].
    destruct (es !! s) as [n0 |]; [| discriminate].
    destruct (IH _ _ bytes H) as [n1 ->]. eauto.
Qed.

(** A write leaves every other regular file as it was. *)
Lemma resolve_write_node_file p : forall n n' bytes p' data,
  write_node n p bytes = Ok n' -> resolve n' p' = Ok (File data) ->
  data = bytes \/ resolve n p' = Ok (File data).
Proof.
  induction p as [| s p IH]; intros n n' bytes p' data Hw Hr; cbn in Hw.
  - destruct n; [| discriminate]. injection Hw as <-.
    destruct p'; cbn in Hr; [injection Hr as <-; auto | discriminate].
  - destruct n as [| es]; [discriminate |].
    destruct (name_too_long s) eqn:Hl; [discriminate |].
    destruct p' as [| s' p']; cbn in Hr |- *.
    { destruct (es !! s) as [n0 |].
      - destruct (write_node n0 p bytes); [injection Hw as <- |]; discriminate.
      - destruct p; [injection Hw as <- |]; discriminate. }
    destruct (es !! s) as [n0 |] eqn:Hs.
    + destruct (write_node n0 p bytes) as [n1 |] eqn:H1; [| discriminate].
      injection Hw as <-. cbn in Hr.
      destruct (name_too_long s') eqn:Hl'; [discriminate |].
      destruct (decide (s = s')) as [<- | Hne].
      * rewrite lookup_insert_eq in Hr. rewrite Hs. eauto.
      * rewrite lookup_insert_ne in Hr by assumption. auto.
    + destruct p; [| discriminate]. injection Hw as <-. cbn in Hr.
      destruct (name_too_long s') eqn:Hl'; [discriminate |].
      destruct (decide (s = s')) as [<- | Hne].
      * rewrite lookup_insert_eq in Hr.
        destruct p'; cbn in Hr; [injection Hr as <-; auto | discriminate].
      * rewrite lookup_insert_ne in Hr by assumption. auto.
Qed.

(** [getCached] by the state of the entry. *)
Lemma getCached_resolve query w :
  getCached query w =
  match resolve (Dir (cache w)) (cacheFile query) with
  | Ok (File data) => (Ok (Some (utf8_decode data)), w)
  | Ok (Dir _) => (Throw EISDIR, w)
  | Throw _ => (Ok None, w)
  end.
Proof.
  unfold getCached, bind, pathExists, readFile, ret.
  destruct (resolve (Dir (cache w)) (cacheFile query)) as [[data | es] | e]
    eqn:H; cbv beta iota; rewrite ?H; reflexivity.
Qed.

Lemma getCached_world query w : snd (getCached query w) = w.
Proof.
  rewrite getCached_resolve.
  destruct (resolve _ _) as [[|]|]; reflexivity.
Qed.

Lemma setCached_write query data w :
  setCached query data w =
  match write_node (Dir (cache w)) (cacheFile query) (utf8_encode data) with
  | Ok (Dir es) => (Ok tt, World es (console w) (requests w))
  | Ok (File _) => (Throw EISDIR, w)
  | Throw e => (Throw e, w)
  end.
Proof. reflexivity. Qed.

Lemma setCached_ok query data w w' :
  setCached query data w = (Ok tt, w') ->
  write_node (Dir (cache w)) (cacheFile query) (utf8_encode data)
    = Ok (Dir (cache w')) /\
  console w' = console w /\ requests w' = requests w.
Proof.
  rewrite setCached_write.
  destruct (write_node _ _ _) as [[| es] |]; [discriminate | | discriminate].
  intros [= <-]. auto.
Qed.

Lemma setCached_throw query data w e w' :
  setCached query data w = (Throw e, w') -> w' = w.
Proof.
  rewrite setCached_write. intros H.
  destruct (write_node _ _ _) as [[| es] |] eqn:Hw.
  - apply write_node_dir in Hw as [? [=]].
  - discriminate.
  - congruence.
Qed.

(** What [setCached] stored is what [getCached] reads, up to the
    replacement of unpaired surrogates by the UTF-8 conversion. *)
Lemma getCached_setCached query data w w' :
  setCached query data w = (Ok tt, w') ->
  getCached query w' = (Ok (Some (to_well_formed data)), w').
Proof.
  intros H. apply setCached_ok in H as [H _].
  apply resolve_write_node in H.
  rewrite getCached_resolve, H, utf8_decode_encode. reflexivity.
Qed.

Lemma getCached_setCached_exact query data w w' :
  well_formed data = true ->
  setCached query data w = (Ok tt, w') ->
  getCached query w' = (Ok (Some data), w').
Proof.
  intros Hwf H. rewrite (getCached_setCached _ _ _ _ H).
  rewrite to_well_formed_id by assumption. reflexivity.
Qed.

(** ** The claims on the cache store *)

(** C2: the code fails where the claim holds.  The key of the query [???]
    is [Pz8/]; its file lies in a sub-directory of the cache directory
    that nothing creates, so [setCached] throws, whatever the text, and
    [getCached] finds nothing afterwards. *)
Theorem setCached_slash_key_throws data :
  cacheFile (js "???") = ["Pz8"; ".txt"] /\
  (setCached (js "???") data ;; getCached (js "???")) fresh
    = (Throw ENOENT, fresh) /\
  getCached (js "???") fresh = (Ok None, fresh).
Proof. repeat split. Qed.

(** C3, as stated, fails: when the entry of a query is a directory,
    [getCached] throws. *)
Lemma getCached_directory_throws :
  getCached (js "a") directory_entry = (Throw EISDIR, directory_entry).
Proof. reflexivity. Qed.

(** C3, amended: [getCached] returns [null] without an error when the entry
    is absent, and the text of the entry when it is a regular file; an error
    of reading an entry that exists is not caught and reaches the caller. *)
Theorem getCached_outcome query w :
  (forall e, resolve (Dir (cache w)) (cacheFile query) = Throw e ->
     getCached query w = (Ok None, w)) /\
  (forall data, resolve (Dir (cache w)) (cacheFile query) = Ok (File data) ->
     getCached query w = (Ok (Some (utf8_decode data)), w)) /\
  (forall es, resolve (Dir (cache w)) (cacheFile query) = Ok (Dir es) ->
     getCached query w = (Throw EISDIR, w)).
Proof.
  rewrite getCached_resolve.
  repeat split; intros ? ->; reflexivity.
Qed.

Lemma getCached_outcome_witness :
  getCached (js "a") fresh = (Ok None, fresh) /\
  getCached (js "a") text_entry = (Ok (Some (js "cached")), text_entry) /\
  getCached (js "a") directory_entry = (Throw EISDIR, directory_entry).
Proof.
  split; [| split].
  - apply (proj1 (getCached_outcome (js "a") fresh) ENOENT). reflexivity.
  - apply (proj1 (proj2 (getCached_outcome (js "a") text_entry))
             (utf8_encode (js "cached"))).
    reflexivity.
  - apply (proj2 (proj2 (getCached_outcome (js "a") directory_entry)) ∅).
    reflexivity.
Defined.

(** C8: the code fails where the claim holds.  The key of the query [???]
    contains a slash, the path separator, so the file of the entry is not
    directly in the cache directory. *)
Theorem cacheKey_slash :
  cacheKey (js "???") = "Pz8/" /\ cacheFile (js "???") = ["Pz8"; ".txt"].
Proof. split; reflexivity. Qed.

(** Unpaired surrogates share the key of U+FFFD. *)
Example cacheKey_unpaired :
  cacheKey [0xD800%Z] = cacheKey [0xDC00%Z] /\
  cacheKey [0xD800%Z] = cacheKey [0xFFFD%Z].
Proof. split; reflexivity. Qed.

(** The first 5000 code units of a text may end in the middle of a
    surrogate pair; the cache then gives back U+FFFD in its place. *)
Example slice_splits_pair :
  let text := take 5000 (replicate 4999 97%Z ++ [0xD83D; 0xDE00]%Z) in
  well_formed text = false /\
  fst ((setCached (js "a") text ;; getCached (js "a")) fresh)
    = Ok (Some (replicate 4999 97%Z ++ [0xFFFD%Z])).
Proof. vm_compute. split; reflexivity. Qed.

(** * Retrying search *)

Section Search.
Variable net : network.
Variable query : jsstring.
Variable retries : nat.

Local Abbreviation outcome := (search_outcome net query).
Local Abbreviation loop := (fetchDuckDuckGo_loop net query retries).

Lemma world_eta w : World (cache w) (console w) (requests w) = w.
Proof. destruct w; reflexivity. Qed.

Lemma with_requests_nil w : with_requests [] w = w.
Proof. unfold with_requests. rewrite app_nil_r. apply world_eta. Qed.

Lemma with_console_nil w : with_console [] w = w.
Proof. unfold with_console. rewrite app_nil_r. apply world_eta. Qed.

Lemma search_requests_S n :
  search_requests query (S n) =
  search_requests query 1 ++ search_requests query n.
Proof. unfold search_requests. destruct (well_formed query); reflexivity. Qed.

(** One iteration of the loop. *)
Lemma loop_S n i w :
  loop (S n) i w =
  let w1 := with_requests (search_requests query 1) w in
  match outcome i with
  | Yields (l :: ls) => (Ok (take 5 (l :: ls)), w1)
  | Yields [] => loop n (S i) w1
  | Fails _ =>
      loop n (S i)
        (with_console (if Nat.eqb i retries then [SearchFailed] else []) w1)
  end.
Proof.
  cbn [fetchDuckDuckGo_loop]. unfold search_outcome, search_requests.
  unfold bind at 1. unfold try_catch, search_attempt.
  destruct (well_formed query).
  - unfold bind at 2 3, send, settle.
    destruct (search_page net query i) as [e | [| l ls]]; cbn.
    + unfold throw, bind. destruct (Nat.eqb i retries); cbn; [reflexivity |].
      unfold with_console. cbn. rewrite app_nil_r. reflexivity.
    + reflexivity.
    + reflexivity.
  - unfold throw, bind. rewrite with_requests_nil.
    destruct (Nat.eqb i retries); cbn; [reflexivity |].
    rewrite with_console_nil. reflexivity.
Qed.

Lemma search_requests_add n m :
  search_requests query (n + m) =
  search_requests query n ++ search_requests query m.
Proof.
  unfold search_requests. destruct (well_formed query); [| reflexivity].
  apply replicate_add.
Qed.

Lemma with_console_requests ms rs ms' rs' w :
  with_console ms' (with_requests rs' (with_console ms (with_requests rs w)))
  = with_console (ms ++ ms') (with_requests (rs ++ rs') w).
Proof.
  unfold with_console, with_requests. cbn. rewrite !app_assoc. reflexivity.
Qed.

(** The loop returns and never throws; it only sends search requests, at
    most one for each iteration to go, and logs at most the failure
    message. *)
Lemma loop_returns n : forall i w,
  exists links m ms,
    loop n i w =
      (Ok links,
       with_console ms (with_requests (search_requests query m) w)) /\
    (length links <= 5)%nat /\ (m <= n)%nat /\ (0 < n -> 0 < m)%nat /\
    (ms = [] \/ (i <= retries)%nat /\ ms = [SearchFailed]).
Proof.
  induction n as [| n IH]; intros i w.
  - exists [], 0%nat, []. cbn [fetchDuckDuckGo_loop ret].
    replace (search_requests query 0) with (@nil request)
      by (unfold search_requests; destruct (well_formed query); reflexivity).
    rewrite with_requests_nil, with_console_nil.
    repeat split; cbn; try lia. auto.
  - rewrite loop_S. cbv zeta.
    set (w1 := with_requests (search_requests query 1) w).
    destruct (outcome i) as [e | [| l ls]].
    + destruct (IH (S i) (with_console
          (if Nat.eqb i retries then [SearchFailed] else []) w1))
        as (links & m & ms & -> & ? & ? & ? & Hms).
      exists links, (1 + m)%nat.
      exists ((if Nat.eqb i retries then [SearchFailed] else []) ++ ms).
      unfold w1. rewrite with_console_requests, search_requests_add.
      repeat split; try assumption; try lia.
      destruct (Nat.eqb_spec i retries) as [-> | Hne].
      * destruct Hms as [-> | [? _]]; [right; split; [lia | reflexivity] | lia].
      * destruct Hms as [-> | [? ->]]; [left; reflexivity |].
        right. split; [lia | reflexivity].
    + destruct (IH (S i) w1) as (links & m & ms & -> & ? & ? & ? & Hms).
      exists links, (1 + m)%nat, ms.
      unfold w1. rewrite <- (with_console_nil (with_requests _ w)).
      rewrite with_console_requests, search_requests_add.
      repeat split; try assumption; try lia.
      destruct Hms as [-> | [? ->]]; [left; reflexivity |].
      right. split; [lia | reflexivity].
    + exists (take 5 (l :: ls)), 1%nat, [].
      rewrite with_console_nil. repeat split; try lia; [| auto].
      rewrite length_take. lia.
Qed.

(** No attempt from [i] on yields a link. *)
Lemma loop_no_links n : forall i w,
  (i + n = S retries)%nat ->
  (forall j, (i <= j <= retries)%nat -> no_links (outcome j) = true) ->
  loop n i w =
  (Ok [],
   with_console
     (if failed (outcome retries) && negb (Nat.eqb n 0)
      then [SearchFailed] else [])
     (with_requests (search_requests query n) w)).
Proof.
  induction n as [| n IH]; intros i w Hi Hno.
  - cbn [fetchDuckDuckGo_loop ret Nat.eqb negb]. rewrite andb_false_r.
    unfold search_requests. cbn.
    destruct (well_formed query); cbn; rewrite with_requests_nil,
      with_console_nil; reflexivity.
  - rewrite loop_S. cbv zeta.
    pose proof (Hno i ltac:(lia)) as Hi0.
    destruct (Nat.eqb_spec i retries) as [-> | Hne].
    + assert (n = 0)%nat as -> by lia.
      destruct (outcome retries) as [e | [| l ls]]; [| | discriminate];
        cbn; unfold with_console, with_requests; cbn;
        unfold search_requests; destruct (well_formed query); cbn;
        rewrite ?app_nil_r; reflexivity.
    + destruct n as [| n]; [lia |].
      assert (forall w0, loop (S n) (S i) w0 =
        (Ok [], with_console
           (if failed (outcome retries) then [SearchFailed] else [])
           (with_requests (search_requests query (S n)) w0))) as Hrec.
      { intros w0. rewrite IH; [| lia | intros; apply Hno; lia].
        cbn [Nat.eqb negb]. rewrite andb_true_r. reflexivity. }
      cbn [Nat.eqb negb]. rewrite andb_true_r.
      rewrite (search_requests_S (S n)).
      destruct (outcome i) as [e | [| l ls]]; [| | discriminate];
        rewrite Hrec; unfold with_console, with_requests; cbn;
        rewrite ?app_nil_r, <- ?app_assoc; reflexivity.
Qed.

(** Attempt [i + m] is the first from [i] on that yields links. *)
Lemma loop_first_links m : forall n i w l ls,
  (i + n = S retries)%nat -> (i + m <= retries)%nat ->
  (forall j, (i <= j < i + m)%nat -> no_links (outcome j) = true) ->
  outcome (i + m) = Yields (l :: ls) ->
  loop n i w =
  (Ok (take 5 (l :: ls)), with_requests (search_requests query (S m)) w).
Proof.
  induction m as [| m IH]; intros n i w l ls Hi Hk Hno Hyes;
    (destruct n as [| n]; [lia |]); rewrite loop_S; cbv zeta.
  - rewrite Nat.add_0_r in Hyes. rewrite Hyes. reflexivity.
  - pose proof (Hno i ltac:(lia)) as Hi0.
    assert (Nat.eqb i retries = false) as -> by (apply Nat.eqb_neq; lia).
    rewrite with_console_nil, (search_requests_S (S m)).
    assert (forall w0, loop n (S i) w0 =
      (Ok (take 5 (l :: ls)),
       with_requests (search_requests query (S m)) w0)) as Hrec.
    { intros w0. apply IH; [lia | lia | intros; apply Hno; lia |].
      rewrite <- Hyes. f_equal. lia. }
    destruct (outcome i) as [e | [| l0 ls0]]; [| | discriminate];
      rewrite Hrec; unfold with_requests; cbn [cache console requests];
      rewrite <- app_assoc; reflexivity.
Qed.
End Search.

(** C6, as stated, fails: three result pages without links make three
    attempts that yield zero links, the search returns the empty sequence,
    and no failure message is logged. *)
Lemma fetchDuckDuckGo_empty_pages_silent :
  no_links (search_outcome empty_pages (js "q") 0) = true /\
  no_links (search_outcome empty_pages (js "q") 1) = true /\
  no_links (search_outcome empty_pages (js "q") 2) = true /\
  fetchDuckDuckGo empty_pages (js "q") 2 fresh =
    (Ok [], World ∅ [] (replicate 3 (SearchRequest (js "q")))).
Proof. repeat split. Qed.

(** C6, amended: [fetchDuckDuckGo] returns, with at most five links, and
    sends at most [retries + 1] requests; the first attempt that yields
    links ends it at once with the first five of them, in document order,
    and nothing is logged; an attempt that throws or yields no link is
    followed by the next one; when no attempt yields a link the result is
    the empty sequence, and the failure message is logged once if the final
    attempt threw, and not at all if it completed with a page without
    links. *)
Theorem fetchDuckDuckGo_retry net query retries w :
  (exists links w',
     fetchDuckDuckGo net query retries w = (Ok links, w') /\
     (length links <= 5)%nat /\ cache w' = cache w /\
     (length (requests w') <= length (requests w) + S retries)%nat) /\
  (forall k l ls,
     (k <= retries)%nat ->
     (forall j, (j < k)%nat -> no_links (search_outcome net query j) = true) ->
     search_outcome net query k = Yields (l :: ls) ->
     fetchDuckDuckGo net query retries w =
       (Ok (take 5 (l :: ls)),
        with_requests (replicate (S k) (SearchRequest query)) w)) /\
  ((forall j, (j <= retries)%nat ->
      no_links (search_outcome net query j) = true) ->
   fetchDuckDuckGo net query retries w =
     (Ok [],
      with_console
        (if failed (search_outcome net query retries)
         then [SearchFailed] else [])
        (with_requests (search_requests query (S retries)) w))).
Proof.
  unfold fetchDuckDuckGo. split; [| split].
  - destruct (loop_returns net query retries (S retries) 0 w)
      as (links & m & ms & -> & Hl & Hm & _ & _).
    eexists _, _. split; [reflexivity |]. split; [exact Hl |].
    split; [reflexivity |]. cbn. unfold search_requests.
    destruct (well_formed query); rewrite length_app; cbn;
      rewrite ?length_replicate; lia.
  - intros k l ls Hk Hno Hyes.
    rewrite (loop_first_links net query retries k (S retries) 0 w l ls);
      [| lia | lia | intros; apply Hno; lia | exact Hyes].
    unfold search_requests, search_outcome in *.
    destruct (well_formed query); [reflexivity | discriminate].
  - intros Hno. rewrite loop_no_links; [| lia | intros; apply Hno; lia].
    cbn [Nat.eqb negb]. rewrite andb_true_r. reflexivity.
Qed.

Lemma fetchDuckDuckGo_retry_witness :
  fetchDuckDuckGo third_time_lucky (js "q") 2 fresh =
    (Ok ((fun c => Some [c]) <$> [97; 98; 99; 100; 101]%Z),
     World ∅ [] (replicate 3 (SearchRequest (js "q")))) /\
  fetchDuckDuckGo unreachable (js "q") 2 fresh =
    (Ok [], World ∅ [SearchFailed] (replicate 3 (SearchRequest (js "q")))).
Proof.
  split.
  - refine (eq_trans (proj1 (proj2
      (fetchDuckDuckGo_retry third_time_lucky (js "q") 2 fresh)) 2%nat
      (Some [97%Z]) ((fun c => Some [c]) <$> [98; 99; 100; 101; 102]%Z)
      _ _ _) _).
    + lia.
    + intros [| [| j]] Hj; [reflexivity | reflexivity | lia].
    + reflexivity.
    + reflexivity.
  - refine (eq_trans (proj2 (proj2
      (fetchDuckDuckGo_retry unreachable (js "q") 2 fresh)) _) _).
    + intros j _. reflexivity.
    + reflexivity.
Defined.

(** * Snippet extractor *)

Section Extractor.
Variable net : network.
Variable retries : nat.
Variable k : nat.
Variable url : link.

Local Abbreviation loop := (fetchCodeSnippet_loop net k url retries).
Local Abbreviation outcome := (page_outcome net k url).

Local Abbreviation after_attempt := (after_attempt net retries k url).

Lemma page_settle_catch i w :
  try_catch
    (codes <- page_settle net k url i ;; ret (snippet_of codes))
    (fun _ => snippet_catch url retries i) w =
  (Ok (match outcome i with
       | Yields codes => snippet_of codes
       | Fails _ => None
       end), after_attempt i w).
Proof.
  unfold after_attempt, try_catch, bind, page_settle, page_outcome,
    snippet_catch, settle.
  destruct (target net url) as [u |]; cbv beta iota;
    [destruct (code_page net k u i) |]; cbn;
    try (rewrite with_console_nil; reflexivity);
    unfold bind; destruct (Nat.eqb i retries); cbn;
    try (rewrite with_console_nil); reflexivity.
Qed.

Lemma page_send_world w :
  page_send net url w = (Ok tt, with_requests (page_requests net url) w).
Proof.
  unfold page_send, page_requests. destruct (target net url); [reflexivity |].
  rewrite with_requests_nil. reflexivity.
Qed.

(** One iteration of the loop. *)
Lemma snippet_loop_S n i w :
  loop (S n) i w =
  let w1 := after_attempt i (with_requests (page_requests net url) w) in
  match outcome i with
  | Yields codes =>
      match snippet_of codes with
      | Some text => (Ok text, w1)
      | None => loop n (S i) w1
      end
  | Fails _ => loop n (S i) w1
  end.
Proof.
  cbn [fetchCodeSnippet_loop]. unfold bind at 1.
  assert (try_catch
    (page_send net url ;; codes <- page_settle net k url i ;;
     ret (snippet_of codes))
    (fun _ => snippet_catch url retries i) w =
    try_catch
    (codes <- page_settle net k url i ;; ret (snippet_of codes))
    (fun _ => snippet_catch url retries i)
    (with_requests (page_requests net url) w)) as ->.
  { unfold try_catch. unfold bind at 1. rewrite page_send_world.
    reflexivity. }
  rewrite page_settle_catch. cbv zeta.
  destruct (outcome i) as [e | codes]; [reflexivity |].
  destruct (snippet_of codes); reflexivity.
Qed.

Lemma snippet_of_length codes text :
  snippet_of codes = Some text -> (length text <= 5000)%nat.
Proof.
  unfold snippet_of. destruct (nonempty codes); [| discriminate].
  intros [= <-]. rewrite length_take. lia.
Qed.

(** The loop returns the same snippet in every world, never throws and
    never touches the cache. *)
Lemma snippet_loop_returns n : forall i w,
  exists w',
    loop n i w = (Ok (extracted_from net retries k url n i), w') /\
    cache w' = cache w.
Proof.
  unfold extracted_from, returned.
  induction n as [| n IH]; intros i w.
  - exists w. split; reflexivity.
  - rewrite !snippet_loop_S. cbv zeta.
    assert (exists w',
      loop n (S i) (after_attempt i (with_requests (page_requests net url) w))
      = (Ok match fst (loop n (S i) (after_attempt i
               (with_requests (page_requests net url) fresh))) with
            | Ok a => a
            | Throw _ => []
            end, w') /\ cache w' = cache w) as Hrec.
    { destruct (IH (S i) (after_attempt i
        (with_requests (page_requests net url) fresh))) as (w0 & -> & _).
      destruct (IH (S i) (after_attempt i
        (with_requests (page_requests net url) w))) as (w' & Hl & Hc).
      exists w'. split; [exact Hl | rewrite Hc; reflexivity]. }
    destruct (outcome i) as [e | codes]; [exact Hrec |].
    destruct (snippet_of codes) as [text |]; [| exact Hrec].
    eexists. split; reflexivity.
Qed.

Lemma extracted_from_O i : extracted_from net retries k url 0 i = [].
Proof. reflexivity. Qed.

Lemma extracted_from_S n i :
  extracted_from net retries k url (S n) i =
  match outcome i with
  | Yields codes =>
      match snippet_of codes with
      | Some text => text
      | None => extracted_from net retries k url n (S i)
      end
  | Fails _ => extracted_from net retries k url n (S i)
  end.
Proof.
  unfold extracted_from at 1. unfold returned. rewrite snippet_loop_S.
  cbv zeta.
  destruct (outcome i) as [e | codes]; [| destruct (snippet_of codes)];
    try reflexivity;
    destruct (snippet_loop_returns n (S i) (after_attempt i
      (with_requests (page_requests net url) fresh))) as (w0 & -> & _);
    reflexivity.
Qed.

Lemma extracted_from_length n : forall i,
  (length (extracted_from net retries k url n i) <= 5000)%nat.
Proof.
  induction n as [| n IH]; intros i.
  - cbn. lia.
  - rewrite extracted_from_S.
    destruct (outcome i) as [e | codes]; [apply IH |].
    destruct (snippet_of codes) eqn:Hs; [| apply IH].
    eapply snippet_of_length; eassumption.
Qed.

Lemma fetchCodeSnippet_returns w :
  exists w',
    fetchCodeSnippet net k url retries w
      = (Ok (extracted net retries k url), w') /\
    cache w' = cache w.
Proof. apply snippet_loop_returns. Qed.

Lemma extracted_length : (length (extracted net retries k url) <= 5000)%nat.
Proof. apply extracted_from_length. Qed.
End Extractor.

Local Close Scope Z_scope.

(** * Fan-out *)

Section FanOut.
Variable net : network.
Variable retries : nat.

Local Abbreviation final := (task_final net retries).
Local Abbreviation left := (remaining retries).
Local Abbreviation ok := (task_ok retries).

Lemma task_step_spec k t w :
  ok t ->
  exists t' w',
    task_step net retries k t w = (Ok t', w') /\
    cache w' = cache w /\ requests w `prefix_of` requests w' /\
    ok t' /\ final k t' = final k t /\ left t' <= left t - 1.
Proof.
  intros Hok. unfold task_step, task_final, remaining, task_ok in *.
  destruct t as [url i [v |]]; cbn [task_value task_url task_attempt] in *.
  { eexists _, w. split; [reflexivity |]. split; [reflexivity |].
    split; [reflexivity |]. repeat split; cbn; try discriminate; lia. }
  specialize (Hok eq_refl).
  unfold bind at 1. rewrite page_settle_catch.
  replace (S retries - i) with (S (retries - i)) by lia.
  rewrite extracted_from_S.
  assert (Hnext :
    exists t' w',
      (if Nat.ltb i retries
       then page_send net url ;; ret (Task url (S i) None)
       else ret (Task url i (Some []))) (after_attempt net retries k url i w)
      = (Ok t', w') /\
      cache w' = cache w /\ requests w `prefix_of` requests w' /\
      (task_value t' = None -> task_attempt t' <= retries) /\
      match task_value t' with
      | Some text => text
      | None => extracted_from net retries k (task_url t')
                  (S retries - task_attempt t') (task_attempt t')
      end = extracted_from net retries k url (retries - i) (S i) /\
      match task_value t' with
      | Some _ => 0
      | None => S retries - task_attempt t'
      end <= S (retries - i) - 1).
  { destruct (Nat.ltb_spec i retries) as [Hlt | Hge].
    - unfold bind. rewrite page_send_world. eexists _, _.
      split; [reflexivity |]. cbn.
      split; [reflexivity |]. split; [apply prefix_app_r; reflexivity |].
      repeat split; lia.
    - eexists _, _. split; [reflexivity |]. cbn.
      replace (retries - i) with 0 by lia.
      split; [reflexivity |]. split; [reflexivity |].
      repeat split; try discriminate; lia. }
  destruct (page_outcome net k url i) as [e | codes]; [exact Hnext |].
  destruct (snippet_of codes) as [text |]; [| exact Hnext].
  eexists _, _. split; [reflexivity |]. cbn.
  split; [reflexivity |]. split; [reflexivity |].
  repeat split; try discriminate; lia.
Qed.

Lemma run_schedule_spec sched : forall ts w,
  Forall ok ts ->
  exists ts' w',
    run_schedule net retries sched ts w = (Ok ts', w') /\
    cache w' = cache w /\ requests w `prefix_of` requests w' /\
    Forall ok ts' /\
    length ts' = length ts /\
    forall k t, ts !! k = Some t ->
      exists t', ts' !! k = Some t' /\
        final k t' = final k t /\
        left t' <= left t - count_occ Nat.eq_dec sched k.
Proof.
  induction sched as [| j sched IH]; intros ts w Hok.
  - exists ts, w. split; [reflexivity |]. split; [reflexivity |].
    split; [reflexivity |]. repeat split; try assumption.
    intros k t Hk. exists t. repeat split; [assumption | cbn; lia].
  - cbn [run_schedule].
    destruct (ts !! j) as [tj |] eqn:Hj.
    + assert (ok tj) as Hoj.
      { eapply Forall_lookup_1; eassumption. }
      destruct (task_step_spec j tj w Hoj)
        as (tj' & w1 & Hs & Hc1 & Hp1 & Hoj' & Hf & Hl).
      unfold bind at 1. rewrite Hs.
      destruct (IH (<[j:=tj']> ts) w1)
        as (ts' & w' & Hr & Hc & Hp & Ho & Hn & H).
      { apply Forall_insert; assumption. }
      exists ts', w'. split; [exact Hr |].
      split; [congruence |]. split; [etrans; eassumption |].
      split; [assumption |].
      split; [rewrite Hn; apply length_insert |].
      intros k t Hk. cbn [count_occ].
      destruct (Nat.eq_dec j k) as [-> | Hne].
      * assert (t = tj) as -> by congruence.
        destruct (H k tj') as (t' & Ht' & Hf' & Hl').
        { apply list_lookup_insert_eq. eapply lookup_lt_Some; eassumption. }
        exists t'. repeat split; [assumption | congruence | lia].
      * destruct (H k t) as (t' & Ht' & Hf' & Hl').
        { rewrite list_lookup_insert_ne by assumption. assumption. }
        exists t'. repeat split; assumption.
    + destruct (IH ts w Hok) as (ts' & w' & Hr & Hc & Hp & Ho & Hn & H).
      exists ts', w'. repeat split; try assumption.
      intros k t Hk. cbn [count_occ].
      destruct (Nat.eq_dec j k) as [-> | Hne]; [congruence |].
      apply H. assumption.
Qed.

Lemma count_occ_replicate m j k :
  count_occ Nat.eq_dec (replicate m j) k = if decide (j = k) then m else 0.
Proof.
  induction m as [| m IH]; cbn [replicate count_occ].
  - destruct (decide (j = k)); reflexivity.
  - rewrite IH. destruct (Nat.eq_dec j k), (decide (j = k)); congruence.
Qed.

Lemma count_occ_drain n : forall a k,
  a <= k < a + n ->
  count_occ Nat.eq_dec
    (mjoin ((fun j => replicate (S retries) j) <$> seq a n)) k = S retries.
Proof.
  induction n as [| n IH]; intros a k Hk; [lia |].
  cbn [seq fmap list_fmap mjoin list_join].
  rewrite count_occ_app, count_occ_replicate.
  destruct (decide (a = k)) as [-> | Hne].
  - match goal with |- _ + ?c = _ => assert (c = 0) as ->; [| lia] end.
    apply count_occ_not_In. intros Hin.
    apply list_elem_of_In, list_elem_of_join in Hin as (l & Hkl & Hl).
    apply list_elem_of_fmap in Hl as (j & -> & Hj).
    apply elem_of_replicate in Hkl as [-> _].
    apply elem_of_seq in Hj. lia.
  - rewrite IH by lia. lia.
Qed.

Lemma start_tasks_spec urls : forall w,
  exists w',
    start_tasks net urls w = (Ok ((fun url => Task url 0 None) <$> urls), w') /\
    cache w' = cache w /\ requests w `prefix_of` requests w'.
Proof.
  induction urls as [| url urls IH]; intros w.
  - exists w. repeat split; reflexivity.
  - cbn [start_tasks]. unfold bind at 1. rewrite page_send_world.
    destruct (IH (with_requests (page_requests net url) w))
      as (w' & H & Hc & Hp).
    unfold bind at 1. rewrite H. eexists.
    split; [reflexivity |]. split; [exact Hc |].
    etrans; [| exact Hp]. apply prefix_app_r. reflexivity.
Qed.

(** Whatever the schedule, [Promise.all] resolves, and with the snippet
    of the [k]-th URL at index [k]. *)
Theorem fan_out_values sched urls w :
  exists w',
    fan_out net retries sched urls w
      = (Ok (imap (extracted net retries) urls), w') /\
    cache w' = cache w /\ requests w `prefix_of` requests w'.
Proof.
  unfold fan_out.
  destruct (start_tasks_spec urls w) as (w0 & H0 & Hc0 & Hp0).
  unfold bind at 1. rewrite H0.
  set (ts := (fun url => Task url 0 None) <$> urls).
  destruct (run_schedule_spec (sched ++ drain retries (length urls)) ts w0)
    as (ts' & w' & Hr & Hc & Hp & Ho & Hn & H).
  { apply Forall_fmap, Forall_forall. intros url _ _. cbn. lia. }
  unfold bind at 1. rewrite Hr. exists w'.
  split; [| split; [congruence | etrans; eassumption]].
  unfold ret. f_equal. f_equal.
  apply list_eq. intros k. unfold promise_values.
  rewrite list_lookup_fmap, list_lookup_imap.
  destruct (urls !! k) as [url |] eqn:Hk.
  - destruct (H k (Task url 0 None)) as (t' & Ht' & Hf & Hl).
    { unfold ts. rewrite list_lookup_fmap, Hk. reflexivity. }
    rewrite Ht'. cbn [fmap option_fmap option_map]. f_equal.
    rewrite count_occ_app in Hl. unfold drain in Hl.
    rewrite count_occ_drain in Hl
      by (apply lookup_lt_Some in Hk; lia).
    pose proof (Forall_lookup_1 _ _ _ _ Ho Ht') as Hok.
    unfold task_final, remaining, task_ok in *. cbn in Hl, Hf.
    destruct (task_value t') as [text |];
      [| specialize (Hok eq_refl); lia].
    cbn. rewrite Hf. reflexivity.
  - cbn. apply lookup_ge_None in Hk.
    rewrite lookup_ge_None_2; [reflexivity |].
    rewrite Hn. unfold ts. rewrite length_fmap. assumption.
Qed.
End FanOut.

(** * Orchestrator *)

Lemma search_loop_value net query retries n : forall i w w0,
  fst (fetchDuckDuckGo_loop net query retries n i w) =
  fst (fetchDuckDuckGo_loop net query retries n i w0).
Proof.
  induction n as [| n IH]; intros i w w0; [reflexivity |].
  rewrite !loop_S. cbv zeta.
  destruct (search_outcome net query i) as [e | [| l ls]];
    [apply IH | apply IH | reflexivity].
Qed.

Lemma fetchDuckDuckGo_returns net query retries w :
  exists m ms,
    fetchDuckDuckGo net query retries w =
      (Ok (returned [] (fetchDuckDuckGo net query retries fresh)),
       with_console ms (with_requests (search_requests query m) w)) /\
    0 < m.
Proof.
  unfold fetchDuckDuckGo, returned.
  rewrite (search_loop_value net query retries (S retries) 0 fresh w).
  destruct (loop_returns net query retries (S retries) 0 w)
    as (links & m & ms & -> & _ & _ & Hm & _).
  exists m, ms. split; [reflexivity | lia].
Qed.

Lemma valid_snippet_truthy v : valid_snippet v = true -> truthy v = true.
Proof.
  unfold valid_snippet. intros H. apply Nat.ltb_lt in H.
  destruct v; [cbn in H; lia | reflexivity].
Qed.

Lemma selected_valid net description v :
  selected net description = Some v ->
  valid_snippet v = true /\ bounded_text v.
Proof.
  unfold selected. intros H. apply find_some in H as [Hin Hv].
  split; [exact Hv |]. split; [apply Nat.ltb_lt; exact Hv |].
  unfold snippets_of in Hin.
  apply list_elem_of_In, list_elem_of_lookup in Hin as [k Hk].
  rewrite list_lookup_imap in Hk.
  destruct (search_links net description !! k) as [url |]; [| discriminate].
  injection Hk as <-. apply extracted_length.
Qed.

(** The network path: the search and the fan-out always come through, and
    only the write-through can throw. *)
Lemma fetch_from_network_spec net sched description w :
  exists w1,
    cache w1 = cache w /\
    (exists rs, requests w1 = requests w ++ rs /\
       (well_formed (description ++ search_suffix) = true ->
        exists rest, rs = SearchRequest (description ++ search_suffix) :: rest)) /\
    fetch_from_network net sched description w =
    match selected net description with
    | Some v =>
        match setCached description v w1 with
        | (Ok _, w2) => (Ok v, w2)
        | (Throw e, w2) => (Throw e, w2)
        end
    | None => (Ok [], w1)
    end.
Proof.
  unfold fetch_from_network.
  destruct (fetchDuckDuckGo_returns net (description ++ search_suffix) 2 w)
    as (m & ms & Hs & Hm).
  unfold bind at 1. rewrite Hs. fold (search_links net description).
  destruct (fan_out_values net 1 sched (search_links net description)
    (with_console ms (with_requests
       (search_requests (description ++ search_suffix) m) w)))
    as (w1 & Hf & Hc & [rs Hp]).
  unfold bind at 1. rewrite Hf. fold (snippets_of net description).
  fold (selected net description).
  exists w1. split; [rewrite Hc; reflexivity |]. split.
  { unfold with_console, with_requests in Hp. cbn [requests] in Hp.
    rewrite <- app_assoc in Hp. eexists. split; [exact Hp |].
    intros Hwf. unfold search_requests. rewrite Hwf.
    destruct m; [lia |]. cbn [replicate app]. eauto. }
  destruct (selected net description) as [v |] eqn:Hsel; [| reflexivity].
  apply selected_valid in Hsel as [Hv _].
  rewrite (valid_snippet_truthy v Hv). unfold bind, ret.
  destruct (setCached description v w1) as [[[] | e] w2]; reflexivity.
Qed.

Lemma log_world msg w : log msg w = (Ok tt, with_console [msg] w).
Proof. reflexivity. Qed.

(** [getCached] only looks at the cache directory. *)
Lemma getCached_cache query w w0 :
  cache w0 = cache w -> fst (getCached query w0) = fst (getCached query w).
Proof.
  intros H. rewrite !getCached_resolve, H.
  destruct (resolve _ _) as [[|]|]; reflexivity.
Qed.

Lemma getCached_at query w w0 :
  cache w0 = cache w -> getCached query w0 = (fst (getCached query w), w0).
Proof.
  intros H. rewrite <- (getCached_cache query w w0 H).
  rewrite <- (getCached_world query w0) at 3.
  destruct (getCached query w0); reflexivity.
Qed.

Lemma setCached_cache query data w w0 :
  cache w0 = cache w ->
  fst (setCached query data w0) = fst (setCached query data w) /\
  cache (snd (setCached query data w0)) = cache (snd (setCached query data w)).
Proof.
  intros H. rewrite !setCached_write, H.
  destruct (write_node _ _ _) as [[| es] |]; cbn; auto.
Qed.

Lemma fetchCodeFromWeb_hit net sched description w text :
  fst (getCached description w) = Ok (Some text) -> truthy text = true ->
  fetchCodeFromWeb net sched description w =
  (Ok text, with_console [FetchingFromWeb; UsingCached] w).
Proof.
  intros Hget Hne. unfold fetchCodeFromWeb.
  unfold bind at 1. rewrite log_world.
  unfold bind at 1.
  rewrite (getCached_at description w) by reflexivity. rewrite Hget, Hne.
  unfold bind, ret. rewrite log_world. unfold with_console. cbn.
  rewrite <- app_assoc. reflexivity.
Qed.

Lemma fetchCodeFromWeb_miss net sched description w :
  fst (getCached description w) = Ok None \/
  fst (getCached description w) = Ok (Some []) ->
  fetchCodeFromWeb net sched description w =
  fetch_from_network net sched description (with_console [FetchingFromWeb] w).
Proof.
  intros Hget. unfold fetchCodeFromWeb.
  unfold bind at 1. rewrite log_world.
  unfold bind at 1.
  rewrite (getCached_at description w) by reflexivity.
  destruct Hget as [-> | ->]; reflexivity.
Qed.

Lemma fetchCodeFromWeb_read_error net sched description w e :
  fst (getCached description w) = Throw e ->
  fetchCodeFromWeb net sched description w =
  (Throw e, with_console [FetchingFromWeb] w).
Proof.
  intros Hget. unfold fetchCodeFromWeb.
  unfold bind at 1. rewrite log_world.
  unfold bind at 1.
  rewrite (getCached_at description w) by reflexivity. rewrite Hget.
  reflexivity.
Qed.

(** [getCached] returns [null], a text, or throws. *)
Lemma getCached_cases query w :
  fst (getCached query w) = Ok None \/
  fst (getCached query w) = Ok (Some []) \/
  (exists text,
     truthy text = true /\ fst (getCached query w) = Ok (Some text)) \/
  fst (getCached query w) = Throw EISDIR.
Proof.
  rewrite getCached_resolve.
  destruct (resolve _ _) as [[data | es] | e]; cbn; auto.
  destruct (utf8_decode data) eqn:H; auto.
  right. right. left. exists (z :: l). split; reflexivity.
Qed.

(** ** The claims on the orchestrator *)

Lemma find_first {A} (f : A -> bool) (l : list A) k v :
  l !! k = Some v -> f v = true ->
  (forall j s, j < k -> l !! j = Some s -> f s = false) ->
  List.find f l = Some v.
Proof.
  revert k. induction l as [| x l IH]; intros k Hk Hv Hbefore; [discriminate |].
  destruct k as [| k]; cbn in Hk |- *.
  - injection Hk as ->. rewrite Hv. reflexivity.
  - rewrite (Hbefore 0 x) by (lia || reflexivity).
    apply (IH k); [assumption .. |].
    intros j s Hj Hs. apply (Hbefore (S j)); [lia | exact Hs].
Qed.

(** The selection when the write to the cache succeeds: on a cache miss,
    for every result set of the search and the snippets extracted from its
    URLs, and for every order in which the extractions advance and finish,
    [fetchCodeFromWeb] returns the first snippet in rank order that is
    longer than 200 characters. *)
Lemma selection_in_rank_order net sched description w urls snippets k v :
  fst (getCached description w) = Ok None \/
  fst (getCached description w) = Ok (Some []) ->
  search_links net description = urls ->
  imap (extracted net 1) urls = snippets ->
  snippets !! k = Some v ->
  200 < length v ->
  (forall j s, j < k -> snippets !! j = Some s -> length s <= 200) ->
  fst (setCached description v w) = Ok tt ->
  fst (fetchCodeFromWeb net sched description w) = Ok v.
Proof.
  intros Hmiss <- <- Hk Hv Hbefore Hset.
  rewrite fetchCodeFromWeb_miss by assumption.
  destruct (fetch_from_network_spec net sched description
    (with_console [FetchingFromWeb] w)) as (w1 & Hc & _ & ->).
  assert (selected net description = Some v) as ->.
  { apply (find_first _ _ k); [exact Hk | apply Nat.ltb_lt; exact Hv |].
    intros j s Hj Hs. apply Nat.ltb_ge. eauto. }
  destruct (setCached_cache description v w w1 Hc) as [Hw _].
  rewrite Hset in Hw.
  destruct (setCached description v w1) as [[[] | e] w2]; cbn in Hw |- *;
    congruence.
Qed.

Lemma selection_in_rank_order_witness :
  fst (fetchCodeFromWeb three_results [2; 2; 1; 0] (js "a") fresh)
    = Ok (replicate 300 98%Z).
Proof.
  apply (selection_in_rank_order three_results [2; 2; 1; 0] (js "a") fresh
    [Some (js "u1"); Some (js "u2"); Some (js "u3")]
    [replicate 50 97%Z; replicate 300 98%Z; replicate 900 99%Z] 1).
  - left. reflexivity.
  - reflexivity.
  - reflexivity.
  - reflexivity.
  - vm_compute. lia.
  - intros [| j] s Hj; [| lia]. intros [= <-]. vm_compute. lia.
  - vm_compute. reflexivity.
Defined.

(** What a call on a miss throws is what [setCached] throws for the
    selected snippet. *)
Lemma fetchCodeFromWeb_write_error net sched description w v e :
  fst (getCached description w) = Ok None ->
  selected net description = Some v ->
  fst (setCached description v w) = Throw e ->
  fst (fetchCodeFromWeb net sched description w) = Throw e.
Proof.
  intros Hmiss Hsel Hset.
  rewrite fetchCodeFromWeb_miss by auto.
  destruct (fetch_from_network_spec net sched description
    (with_console [FetchingFromWeb] w)) as (w1 & Hc & _ & ->).
  rewrite Hsel.
  destruct (setCached_cache description v w w1 Hc) as [Hw _].
  rewrite Hset in Hw.
  destruct (setCached description v w1) as [[[] | e'] w2]; cbn in Hw |- *;
    congruence.
Qed.

(** C1: the code fails where the claim holds.  For the description [???]
    the search has three results, and the first snippet in rank order that
    is longer than 200 characters is the second, of 300 characters; the
    call does not return it, under any order of the extractions: the key
    of the description is [Pz8/], the write to the cache throws, and the
    call throws with it.  A description of 200 letters fares the same: the
    name of its file is too long. *)
Theorem selection_lost_to_cache_error sched :
  search_links three_results (js "???")
    = [Some (js "u1"); Some (js "u2"); Some (js "u3")] /\
  snippets_of three_results (js "???")
    = [replicate 50 97%Z; replicate 300 98%Z; replicate 900 99%Z] /\
  fst (getCached (js "???") fresh) = Ok None /\
  fst (fetchCodeFromWeb three_results sched (js "???") fresh)
    = Throw ENOENT /\
  fst (fetchCodeFromWeb three_results sched (replicate 200 97%Z) fresh)
    = Throw ENAMETOOLONG.
Proof.
  split; [vm_compute; reflexivity |].
  split; [vm_compute; reflexivity |].
  split; [reflexivity |].
  split.
  - apply (fetchCodeFromWeb_write_error _ _ _ _ (replicate 300 98%Z));
      vm_compute; reflexivity.
  - apply (fetchCodeFromWeb_write_error _ _ _ _ (replicate 300 98%Z));
      vm_compute; reflexivity.
Qed.





(** C5: when the query has no entry and [fetchCodeFromWeb] returns the
    empty string, the cache directory is as it was, and [getCached] still
    finds nothing. *)
Theorem no_cache_on_miss net sched description w w' :
  fst (getCached description w) = Ok None ->
  fetchCodeFromWeb net sched description w = (Ok [], w') ->
  cache w' = cache w /\ fst (getCached description w') = Ok None.
Proof.
  intros Hget Hret.
  assert (cache w' = cache w) as Hc; [| split;
    [exact Hc | rewrite (getCached_cache _ w w' Hc); exact Hget]].
  rewrite fetchCodeFromWeb_miss in Hret by auto.
  destruct (fetch_from_network_spec net sched description
    (with_console [FetchingFromWeb] w)) as (w1 & Hc & _ & Hnet).
  rewrite Hnet in Hret.
  destruct (selected net description) as [v |] eqn:Hsel.
  - apply selected_valid in Hsel as [Hv _]. apply valid_snippet_truthy in Hv.
    destruct (setCached description v w1) as [[[] | e] w2]; [| discriminate].
    injection Hret as -> _. discriminate.
  - injection Hret as <-. exact Hc.
Qed.

Lemma no_cache_on_miss_witness :
  cache (snd (fetchCodeFromWeb empty_pages [] (js "a") fresh)) = ∅ /\
  fst (getCached (js "a")
         (snd (fetchCodeFromWeb empty_pages [] (js "a") fresh))) = Ok None.
Proof.
  apply (no_cache_on_miss empty_pages [] (js "a") fresh).
  - reflexivity.
  - reflexivity.
Defined.

(** C7, as stated, fails: the lookup of the query finds a text, the empty
    one, and [fetchCodeFromWeb] searches the web and returns another. *)
Lemma fetchCodeFromWeb_empty_hit_searches :
  fst (getCached (js "a") empty_entry) = Ok (Some []) /\
  fst (fetchCodeFromWeb three_results [] (js "a") empty_entry)
    = Ok (replicate 300 98%Z) /\
  requests (snd (fetchCodeFromWeb three_results [] (js "a") empty_entry))
    = [SearchRequest (js "a full project code");
       PageRequest (js "u1"); PageRequest (js "u2"); PageRequest (js "u3")].
Proof. vm_compute. repeat split. Qed.

(** C7, amended: when the lookup of the query finds a text that is not
    empty, [fetchCodeFromWeb] returns that text as it is, and sends no
    request and writes nothing. *)
Theorem cache_hit_no_network net sched description w text :
  fst (getCached description w) = Ok (Some text) -> truthy text = true ->
  fst (fetchCodeFromWeb net sched description w) = Ok text /\
  requests (snd (fetchCodeFromWeb net sched description w)) = requests w /\
  cache (snd (fetchCodeFromWeb net sched description w)) = cache w.
Proof.
  intros Hget Hne. rewrite (fetchCodeFromWeb_hit _ _ _ _ text) by assumption.
  repeat split.
Qed.

Lemma cache_hit_no_network_witness :
  fst (fetchCodeFromWeb three_results [] (js "a") text_entry)
    = Ok (js "cached") /\
  requests (snd (fetchCodeFromWeb three_results [] (js "a") text_entry))
    = requests text_entry /\
  cache (snd (fetchCodeFromWeb three_results [] (js "a") text_entry))
    = cache text_entry.
Proof.
  apply cache_hit_no_network.
  - reflexivity.
  - reflexivity.
Defined.

(** C10: when the entry of the query is an empty file, [fetchCodeFromWeb]
    goes on as on a miss: it runs the search, the fan-out and the selection,
    and returns their outcome. *)
Theorem empty_entry_is_a_miss net sched description w :
  resolve (Dir (cache w)) (cacheFile description) = Ok (File []) ->
  fst (getCached description w) = Ok (Some []) /\
  fetchCodeFromWeb net sched description w =
    fetch_from_network net sched description
      (with_console [FetchingFromWeb] w) /\
  fst (fetchCodeFromWeb net sched description w)
    = Ok (default [] (selected net description)) /\
  (well_formed (description ++ search_suffix) = true ->
   exists rest,
     requests (snd (fetchCodeFromWeb net sched description w)) =
     requests w ++ SearchRequest (description ++ search_suffix) :: rest).
Proof.
  intros Hfile.
  assert (fst (getCached description w) = Ok (Some [])) as Hget.
  { rewrite getCached_resolve, Hfile. reflexivity. }
  split; [exact Hget |].
  rewrite fetchCodeFromWeb_miss by auto. split; [reflexivity |].
  destruct (fetch_from_network_spec net sched description
    (with_console [FetchingFromWeb] w)) as (w1 & Hc & (rs & Hrs & Hsent) & ->).
  cbn [with_console cache requests] in Hc, Hrs.
  assert (forall v, exists es, setCached description v w1
          = (Ok tt, World es (console w1) (requests w1))) as Hset.
  { intros v. rewrite setCached_write, Hc.
    destruct (write_node_existing _ _ _ (utf8_encode v) Hfile) as [n' Hw].
    rewrite Hw. destruct (write_node_dir _ _ _ _ Hw) as [es ->]. eauto. }
  destruct (selected net description) as [v |].
  - destruct (Hset v) as [es ->]. cbn. split; [reflexivity |].
    intros Hwf. destruct (Hsent Hwf) as [rest ->]. eauto.
  - cbn. split; [reflexivity |].
    intros Hwf. destruct (Hsent Hwf) as [rest ->]. eauto.
Qed.

Lemma empty_entry_is_a_miss_witness :
  resolve (Dir (cache empty_entry)) (cacheFile (js "a")) = Ok (File []) /\
  fst (fetchCodeFromWeb three_results [1; 0] (js "a") empty_entry)
    = Ok (replicate 300 98%Z).
Proof.
  split; [reflexivity |].
  refine (eq_trans (proj1 (proj2 (proj2
    (empty_entry_is_a_miss three_results [1; 0] (js "a") empty_entry _))))
    _).
  - reflexivity.
  - vm_compute. reflexivity.
Defined.

(** ** The bounds of the returned text *)

Lemma bounded_cache_fresh : bounded_cache fresh.
Proof.
  intros [| s p] data H; cbn in H; [discriminate |].
  destruct (name_too_long s); [discriminate |].
  rewrite lookup_empty in H. discriminate.
Qed.

Lemma bounded_cache_same w w' :
  cache w' = cache w -> bounded_cache w -> bounded_cache w'.
Proof. unfold bounded_cache. intros ->. auto. Qed.

Lemma setCached_bounded query data w :
  bounded_text data -> bounded_cache w ->
  bounded_cache (snd (setCached query data w)).
Proof.
  intros Hdata Hw. destruct (setCached query data w) as [[[] | e] w'] eqn:H.
  - apply setCached_ok in H as [H _]. intros p bytes Hp. cbn in Hp.
    destruct (resolve_write_node_file _ _ _ _ _ _ H Hp) as [-> | Hold].
    + rewrite utf8_decode_encode. unfold bounded_text.
      rewrite length_to_well_formed. exact Hdata.
    + eapply Hw. exact Hold.
  - apply setCached_throw in H as ->. exact Hw.
Qed.

Lemma fetchCodeFromWeb_bounded net sched description w :
  bounded_cache w ->
  within_bounds (fst (fetchCodeFromWeb net sched description w)) /\
  bounded_cache (snd (fetchCodeFromWeb net sched description w)).
Proof.
  intros Hw.
  assert (Hmiss :
    within_bounds (fst (fetch_from_network net sched description
      (with_console [FetchingFromWeb] w))) /\
    bounded_cache (snd (fetch_from_network net sched description
      (with_console [FetchingFromWeb] w)))).
  { destruct (fetch_from_network_spec net sched description
      (with_console [FetchingFromWeb] w)) as (w1 & Hc & _ & ->).
    assert (bounded_cache w1) as Hw1 by (eapply bounded_cache_same; eauto).
    destruct (selected net description) as [v |] eqn:Hsel;
      [| split; [left; reflexivity | exact Hw1]].
    apply selected_valid in Hsel as [_ Hv].
    pose proof (setCached_bounded description v w1 Hv Hw1) as Hw2.
    destruct (setCached description v w1) as [[[] | e] w2];
      (split; [cbn; auto | exact Hw2]). }
  destruct (getCached_cases description w)
    as [Hget | [Hget | [(text & Hne & Hget) | Hget]]].
  - rewrite fetchCodeFromWeb_miss by auto. exact Hmiss.
  - rewrite fetchCodeFromWeb_miss by auto. exact Hmiss.
  - rewrite (fetchCodeFromWeb_hit _ _ _ _ text) by assumption.
    split; [| exact Hw]. right.
    rewrite getCached_resolve in Hget.
    destruct (resolve _ _) as [[data | es] | e] eqn:Hr; try discriminate.
    injection Hget as <-. eapply Hw. exact Hr.
  - rewrite (fetchCodeFromWeb_read_error _ _ _ _ EISDIR) by assumption.
    split; [exact I | exact Hw].
Qed.

Lemma run_bounded events : forall w,
  bounded_cache w -> Forall within_bounds (fst (run events w)).
Proof.
  induction events as [| [net sched description |] events IH]; intros w Hw.
  - constructor.
  - cbn [run].
    destruct (fetchCodeFromWeb_bounded net sched description w Hw) as [Hr Hw'].
    destruct (fetchCodeFromWeb net sched description w) as [r w'].
    specialize (IH w' Hw'). destruct (run events w') as [rs w''].
    constructor; assumption.
  - cbn [run]. apply IH. intros p data H. exfalso.
    destruct p as [| s p]; cbn in H; [discriminate |].
    destruct (name_too_long s); [discriminate |].
    rewrite lookup_empty in H. discriminate.
Qed.

(** C9: from the creation of the cache directory on, whatever calls and
    interrupts follow each other, every text [fetchCodeFromWeb] returns is
    empty or has more than 200 and at most 5000 characters, whether it
    comes from the network or from the cache. *)
Theorem returned_text_bounded events :
  Forall within_bounds (fst (run events fresh)).
Proof. apply run_bounded, bounded_cache_fresh. Qed.

(** The same description twice: from the network, then from the cache. *)
Example retrieve_twice :
  fst (run [Retrieve three_results [2; 0; 1] (js "a");
            Retrieve unreachable [] (js "a")] fresh)
  = [Ok (replicate 300 98%Z); Ok (replicate 300 98%Z)].
Proof. vm_compute. reflexivity. Qed.

(** * The file of a query *)


Lemma segments_cons s : exists seg rest, segments s = seg :: rest.
Proof.
  induction s as [| c r (seg & rest & IH)]; cbn; [eauto |].
  destruct (Ascii.eqb c "/"); [eauto |]. rewrite IH. eauto.
Qed.

Lemma unsegments_segments s : unsegments (segments s) = s.
Proof.
  induction s as [| c r IH]; [reflexivity |]. cbn [segments].
  destruct (segments_cons r) as (seg & rest & Hr). rewrite Hr in *.
  destruct (Ascii.eqb_spec c "/") as [-> | Hne].
  - change (unsegments (EmptyString :: seg :: rest))
      with (String "/" (unsegments (seg :: rest))).
    rewrite IH. reflexivity.
  - destruct rest as [| x rest].
    + cbn in IH |- *. rewrite IH. reflexivity.
    + change (unsegments (String c seg :: x :: rest))
        with (String c (seg +:+ String "/" (unsegments (x :: rest)))).
      change (unsegments (seg :: x :: rest))
        with (seg +:+ String "/" (unsegments (x :: rest))) in IH.
      rewrite IH. reflexivity.
Qed.

Lemma segments_inj s1 s2 : segments s1 = segments s2 -> s1 = s2.
Proof.
  intros H. rewrite <- (unsegments_segments s1), H. apply unsegments_segments.
Qed.

Lemma clean_name_segments s : forall p,
  clean_name p s = true ->
  exists seg rest,
    segments s = seg :: rest /\
    (p = true -> nonempty_string seg = true) /\
    forallb nonempty_string rest = true.
Proof.
  induction s as [| c r IH]; intros p H; cbn in H |- *.
  - exists EmptyString, []. repeat split. intros ->. discriminate.
  - destruct (Ascii.eqb c "/").
    + apply andb_true_iff in H as [Hp Hr].
      destruct (IH true Hr) as (seg & rest & -> & Hseg & Hrest).
      exists EmptyString, (seg :: rest). repeat split.
      * intros ->. discriminate.
      * cbn. rewrite Hseg, Hrest; reflexivity.
    + destruct (IH false H) as (seg & rest & -> & _ & Hrest).
      exists (String c seg), rest. repeat split. exact Hrest.
Qed.

Lemma path_join_clean s :
  clean_name true s = true -> path_join s = segments s /\ path_join s <> [].
Proof.
  intros H. destruct (clean_name_segments s true H)
    as (seg & rest & Hs & Hseg & Hrest).
  unfold path_join. rewrite Hs. cbn. rewrite (Hseg eq_refl).
  split; [| discriminate]. f_equal.
  clear -Hrest. induction rest as [| x rest IH]; [reflexivity |].
  cbn in *. apply andb_true_iff in Hrest as [-> Hrest].
  rewrite IH by assumption. reflexivity.
Qed.

Lemma clean_name_weaken s : clean_name true s = true -> clean_name false s = true.
Proof.
  destruct s as [| c r]; cbn; [discriminate |].
  destruct (Ascii.eqb c "/"); [discriminate | auto].
Qed.

Lemma b64_char_slash x :
  (0 <= x < 64)%Z -> Ascii.eqb (b64_char x) "/" = (x =? 63)%Z.
Proof.
  intros Hx. destruct (Z.eqb_spec x 63) as [-> | Hne]; [reflexivity |].
  apply Ascii.eqb_neq. intros H.
  apply Hne, b64_char_inj; [assumption | lia | exact H].
Qed.

Lemma string_app_String c s t : String c s +:+ t = String c (s +:+ t).
Proof. reflexivity. Qed.

Lemma base64_clean_le n : forall bs t,
  length bs <= n -> Forall small_byte bs ->
  clean_name true t = true -> clean_name true (base64 bs +:+ t) = true.
Proof.
  unfold small_byte.
  induction n as [| n IH]; intros bs t Hn Hbs Ht.
  - destruct bs; [exact Ht | cbn in Hn; lia].
  - pose proof (clean_name_weaken t Ht) as Ht'.
    destruct bs as [| a [| b [| c r]]]; [exact Ht | | |];
      repeat match goal with
      | H : Forall _ (_ :: _) |- _ => apply Forall_cons in H as [? H]
      end.
    + cbn [base64]. rewrite !string_app_String. cbn [clean_name]. rewrite !b64_char_slash by div_lia.
      destruct (Z.eqb_spec (a / 4) 63); [div_lia |].
      destruct (Z.eqb_spec (a mod 4 * 16) 63); [div_lia |]. exact Ht'.
    + cbn [base64]. rewrite !string_app_String. cbn [clean_name]. rewrite !b64_char_slash by div_lia.
      destruct (Z.eqb_spec (a / 4) 63); [div_lia |].
      destruct (Z.eqb_spec (b mod 16 * 4) 63); [div_lia |].
      destruct (Z.eqb_spec (a mod 4 * 16 + b / 16) 63); exact Ht'.
    + assert (clean_name true (base64 r +:+ t) = true) as Hr
        by (apply IH; [cbn in Hn; lia | assumption ..]).
      pose proof (clean_name_weaken _ Hr) as Hr'.
      cbn [base64]. rewrite !string_app_String. cbn [clean_name]. rewrite !b64_char_slash by div_lia.
      destruct (Z.eqb_spec (a / 4) 63); [div_lia |].
      destruct (Z.eqb_spec (a mod 4 * 16 + b / 16) 63);
        destruct (Z.eqb_spec (b mod 16 * 4 + c / 64) 63);
        destruct (Z.eqb_spec (c mod 64) 63);
        cbn; try assumption; div_lia.
Qed.

Lemma utf8_scalar_small cp :
  (0 <= cp < 0x110000)%Z -> Forall small_byte (utf8_scalar cp).
Proof.
  intros H. unfold utf8_scalar, small_byte.
  destruct (Z.ltb_spec cp 0x80); [| destruct (Z.ltb_spec cp 0x800);
    [| destruct (Z.ltb_spec cp 0x10000)]];
    repeat constructor; div_lia.
Qed.

Lemma utf8_encode_small s : Forall small_byte (utf8_encode s).
Proof.
  induction s as [| c r IH1 IH2] using pairwise_ind; [constructor |].
  cbn [utf8_encode]. pose proof (u16_range c) as Hc.
  destruct (is_high (u16 c)) eqn:Hh.
  - apply is_high_spec in Hh. destruct r as [| d r'].
    + apply utf8_scalar_small; lia.
    + destruct (is_low (u16 d)) eqn:Hl.
      * apply is_low_spec in Hl. apply Forall_app. split; [| eauto].
        apply utf8_scalar_small. unfold pair_point. lia.
      * apply Forall_app. split; [apply utf8_scalar_small; lia | assumption].
  - destruct (is_low (u16 c)); apply Forall_app;
      (split; [apply utf8_scalar_small; lia | assumption]).
Qed.

(** The name of a cache file has no empty piece. *)
Lemma cacheFile_segments query :
  cacheFile query = segments (cacheKey query +:+ ".txt") /\
  cacheFile query <> [].
Proof.
  apply path_join_clean, (base64_clean_le (length (utf8_encode query)));
    [lia | apply utf8_encode_small | reflexivity].
Qed.

Lemma string_app_length s t :
  String.length (s +:+ t) = String.length s + String.length t.
Proof.
  induction s as [| c s IH]; [reflexivity |].
  rewrite string_app_String. cbn [String.length]. rewrite IH. reflexivity.
Qed.

Lemma string_app_cancel t : forall s1 s2, s1 +:+ t = s2 +:+ t -> s1 = s2.
Proof.
  induction s1 as [| c1 s1 IH]; intros [| c2 s2] H.
  - reflexivity.
  - apply (f_equal String.length) in H.
    rewrite !string_app_length in H. cbn in H. lia.
  - apply (f_equal String.length) in H.
    rewrite !string_app_length in H. cbn in H. lia.
  - rewrite !string_app_String in H. injection H as -> H. f_equal. auto.
Qed.

Lemma cacheFile_key query1 query2 :
  cacheFile query1 = cacheFile query2 -> cacheKey query1 = cacheKey query2.
Proof.
  intros H.
  rewrite (proj1 (cacheFile_segments query1)),
    (proj1 (cacheFile_segments query2)) in H.
  apply segments_inj, string_app_cancel in H. exact H.
Qed.

(** * The cache as a store of texts *)


Lemma getCached_read_view query w :
  fst (getCached query w) =
  match read_view (Dir (cache w)) (cacheFile query) with
  | Ok (Some data) => Ok (Some (utf8_decode data))
  | Ok None => Ok None
  | Throw e => Throw e
  end.
Proof.
  rewrite getCached_resolve. unfold read_view.
  destruct (resolve _ _) as [[|]|]; reflexivity.
Qed.

(** A write changes nothing of what is read at another path. *)
Lemma read_view_write_node p : forall n n' bytes p',
  write_node n p bytes = Ok n' -> p' <> p ->
  read_view n' p' = read_view n p'.
Proof.
  unfold read_view.
  induction p as [| s p IH]; intros n n' bytes p' Hw Hne; cbn in Hw.
  - destruct n; [| discriminate]. injection Hw as <-.
    destruct p'; [congruence | reflexivity].
  - destruct n as [| es]; [discriminate |].
    destruct (name_too_long s) eqn:Hl; [discriminate |].
    destruct p' as [| s' p'].
    { destruct (es !! s) as [n0 |].
      - destruct (write_node n0 p bytes); [injection Hw as <- |];
          [reflexivity | discriminate].
      - destruct p; [injection Hw as <-; reflexivity | discriminate]. }
    destruct (es !! s) as [n0 |] eqn:Hs.
    + destruct (write_node n0 p bytes) as [n1 |] eqn:H1; [| discriminate].
      injection Hw as <-. cbn.
      destruct (name_too_long s') eqn:Hl'; [reflexivity |].
      destruct (decide (s = s')) as [<- | Hss].
      * rewrite lookup_insert_eq, Hs. eapply IH; [exact H1 | congruence].
      * rewrite lookup_insert_ne by assumption. reflexivity.
    + destruct p; [| discriminate]. injection Hw as <-. cbn.
      destruct (name_too_long s') eqn:Hl'; [reflexivity |].
      destruct (decide (s = s')) as [<- | Hss].
      * rewrite lookup_insert_eq, Hs.
        destruct p'; [congruence | reflexivity].
      * rewrite lookup_insert_ne by assumption. reflexivity.
Qed.

Lemma cacheFile_inj query1 query2 :
  well_formed query1 = true -> well_formed query2 = true ->
  cacheFile query1 = cacheFile query2 -> query1 = query2.
Proof.
  intros H1 H2 H. apply cacheKey_inj; [assumption .. |].
  apply cacheFile_key, H.
Qed.

(** X1: two different well-formed queries never share a cache file. *)
Theorem cacheFile_distinct query1 query2 :
  well_formed query1 = true -> well_formed query2 = true ->
  query1 <> query2 -> cacheFile query1 <> cacheFile query2.
Proof. intros H1 H2 Hne H. apply Hne, cacheFile_inj; assumption. Qed.

Lemma cacheFile_distinct_witness :
  cacheFile (js "route") <> cacheFile (js "routes").
Proof.
  apply cacheFile_distinct; [reflexivity | reflexivity |].
  vm_compute. discriminate.
Defined.

(** X2: what [setCached] has written, [getCached] reads: the text with
    every unpaired surrogate replaced by U+FFFD, which is the text itself
    when it is well formed. *)
Theorem set_then_get query text w w' :
  setCached query text w = (Ok tt, w') ->
  getCached query w' = (Ok (Some (to_well_formed text)), w') /\
  (well_formed text = true -> getCached query w' = (Ok (Some text), w')).
Proof.
  intros H. split; [apply (getCached_setCached _ _ _ _ H) |].
  intros Hwf. apply (getCached_setCached_exact _ _ _ _ Hwf H).
Qed.

Lemma set_then_get_witness :
  getCached (js "a") (snd (setCached (js "a") (js "text") fresh))
  = (Ok (Some (js "text")), snd (setCached (js "a") (js "text") fresh)).
Proof.
  refine (proj2 (set_then_get (js "a") (js "text") fresh _ _) _);
    reflexivity.
Defined.

(** X3: [setCached] for one query, whether it succeeds or throws, changes
    nothing of what [getCached] returns for another query. *)
Theorem setCached_frame query1 query2 text w :
  well_formed query1 = true -> well_formed query2 = true ->
  query1 <> query2 ->
  fst (getCached query2 (snd (setCached query1 text w)))
  = fst (getCached query2 w).
Proof.
  intros H1 H2 Hne.
  destruct (setCached query1 text w) as [[[] | e] w'] eqn:Hs; cbn [snd].
  - apply setCached_ok in Hs as [Hw _].
    rewrite !getCached_read_view.
    rewrite (read_view_write_node _ _ _ _ _ Hw); [reflexivity |].
    intros Heq. apply Hne. apply cacheFile_inj; auto.
  - apply setCached_throw in Hs as ->. reflexivity.
Qed.

Lemma setCached_frame_witness :
  fst (getCached (js "a") (snd (setCached (js "b") (js "new") text_entry)))
  = fst (getCached (js "a") text_entry).
Proof.
  apply setCached_frame; [reflexivity | reflexivity |].
  vm_compute. discriminate.
Defined.

(** X4: after a [setCached] that succeeded, another for the same query
    succeeds too, and replaces the text. *)
Theorem setCached_overwrites query text1 text2 w w1 :
  setCached query text1 w = (Ok tt, w1) ->
  exists w2,
    setCached query text2 w1 = (Ok tt, w2) /\
    getCached query w2 = (Ok (Some (to_well_formed text2)), w2).
Proof.
  intros H1. apply setCached_ok in H1 as [Hw _].
  apply resolve_write_node in Hw.
  destruct (write_node_existing _ _ _ (utf8_encode text2) Hw) as [n' Hw2].
  destruct (write_node_dir _ _ _ _ Hw2) as [es ->].
  exists (World es (console w1) (requests w1)).
  assert (setCached query text2 w1
          = (Ok tt, World es (console w1) (requests w1))) as Hset.
  { rewrite setCached_write, Hw2. reflexivity. }
  split; [exact Hset | apply (getCached_setCached _ _ _ _ Hset)].
Qed.

Lemma setCached_overwrites_witness :
  exists w2,
    setCached (js "a") (js "second")
      (snd (setCached (js "a") (js "first") fresh)) = (Ok tt, w2) /\
    getCached (js "a") w2 = (Ok (Some (js "second")), w2).
Proof.
  apply (setCached_overwrites (js "a") (js "first") (js "second") fresh).
  reflexivity.
Defined.

(** X5: in an empty cache directory, as it is when created and after the
    interrupt handler, [getCached] returns [null] for every query. *)
Theorem getCached_empty_directory query w :
  getCached query fresh = (Ok None, fresh) /\
  fst (getCached query (snd (on_SIGINT w))) = Ok None.
Proof.
  assert (forall w0, cache w0 = ∅ -> fst (getCached query w0) = Ok None) as H.
  { intros w0 H0. rewrite getCached_resolve, H0.
    destruct (cacheFile_segments query) as [_ Hne].
    destruct (cacheFile query) as [| s p]; [congruence |].
    cbn. rewrite lookup_empty. destruct (name_too_long s); reflexivity. }
  split; [| apply H; reflexivity].
  rewrite (surjective_pairing (getCached query fresh)).
  rewrite getCached_world, H; reflexivity.
Qed.

(** * A cache directory of regular files *)

Lemma has_slash_app s t : has_slash (s +:+ t) = has_slash s || has_slash t.
Proof.
  induction s as [| c s IH]; [reflexivity |].
  rewrite string_app_String. cbn [has_slash]. rewrite IH, orb_assoc.
  reflexivity.
Qed.

Lemma segments_no_slash s : has_slash s = false -> segments s = [s].
Proof.
  induction s as [| c s IH]; [reflexivity |]. cbn.
  destruct (Ascii.eqb c "/"); [discriminate |]. cbn.
  intros H. rewrite (IH H). reflexivity.
Qed.

Lemma segments_slash s :
  has_slash s = true -> exists a b rest, segments s = a :: b :: rest.
Proof.
  induction s as [| c s IH]; [discriminate |]. cbn.
  destruct (Ascii.eqb c "/"); cbn.
  - intros _. destruct (segments_cons s) as (seg & rest & ->). eauto.
  - intros H. destruct (IH H) as (a & b & rest & ->). eauto.
Qed.

(** The file of a query is directly in the cache directory when its key
    has no slash, and below a sub-directory when it has one. *)
Lemma cacheFile_shape query :
  if has_slash (cacheKey query)
  then exists a b rest, cacheFile query = a :: b :: rest
  else cacheFile query = [cacheKey query +:+ ".txt"].
Proof.
  rewrite (proj1 (cacheFile_segments query)).
  destruct (has_slash (cacheKey query)) eqn:H.
  - apply segments_slash. rewrite has_slash_app, H. reflexivity.
  - apply segments_no_slash. rewrite has_slash_app, H. reflexivity.
Qed.

Lemma flat_cache_same w w' : cache w' = cache w -> flat_cache w -> flat_cache w'.
Proof. unfold flat_cache. intros ->. auto. Qed.

Lemma flat_cache_empty w : cache w = ∅ -> flat_cache w.
Proof. intros H name n. rewrite H, lookup_empty. discriminate. Qed.

Lemma unstorable_spec query :
  unstorable query = false <->
  has_slash (cacheKey query) = false /\
  String.length (cacheKey query +:+ ".txt") <= 255.
Proof.
  unfold unstorable, name_too_long, NAME_MAX.
  rewrite orb_false_iff, Nat.ltb_ge. reflexivity.
Qed.

(** In a directory of regular files, a write directly in the directory
    succeeds when the name is not too long, and leaves a directory of
    regular files; a write below a sub-directory fails. *)
Lemma write_node_flat es p bytes :
  (forall name n, es !! name = Some n -> exists data, n = File data) ->
  match p with
  | [] => write_node (Dir es) p bytes = Throw EISDIR
  | [name] =>
      write_node (Dir es) p bytes =
        if name_too_long name then Throw ENAMETOOLONG
        else Ok (Dir (<[name:=File bytes]> es))
  | _ :: _ :: _ =>
      write_node (Dir es) p bytes = Throw ENOENT \/
      write_node (Dir es) p bytes = Throw ENOTDIR \/
      write_node (Dir es) p bytes = Throw ENAMETOOLONG
  end.
Proof.
  intros Hflat. destruct p as [| a [| b rest]]; cbn; [reflexivity | |].
  - destruct (name_too_long a); [reflexivity |].
    destruct (es !! a) as [n |] eqn:Ha; [| reflexivity].
    destruct (Hflat a n Ha) as [data ->]. reflexivity.
  - destruct (name_too_long a); [auto |].
    destruct (es !! a) as [n |] eqn:Ha; [| auto].
    destruct (Hflat a n Ha) as [data ->]. auto.
Qed.

(** [setCached] in a directory of regular files. *)
Lemma setCached_flat_cases query text w :
  flat_cache w ->
  flat_cache (snd (setCached query text w)) /\
  if unstorable query
  then snd (setCached query text w) = w /\
       (fst (setCached query text w) = Throw ENOENT \/
        fst (setCached query text w) = Throw ENOTDIR \/
        fst (setCached query text w) = Throw ENAMETOOLONG)
  else fst (setCached query text w) = Ok tt.
Proof.
  intros Hflat. rewrite setCached_write. unfold unstorable.
  pose proof (cacheFile_shape query) as Hshape.
  pose proof (write_node_flat (cache w) (cacheFile query)
    (utf8_encode text) Hflat) as Hw.
  destruct (has_slash (cacheKey query)); cbn [orb].
  - destruct Hshape as (a & b & rest & Hp). rewrite Hp in Hw |- *.
    destruct Hw as [Hw | [Hw | Hw]]; rewrite Hw; cbn [fst snd]; auto 6.
  - rewrite Hshape in Hw |- *. rewrite Hw.
    destruct (name_too_long (cacheKey query +:+ ".txt")); cbn [fst snd];
      [auto 6 |].
    split; [| reflexivity].
    intros name n. cbn.
    destruct (decide (cacheKey query +:+ ".txt" = name)) as [<- | Hne].
    + rewrite lookup_insert_eq. intros [= <-]. eauto.
    + rewrite lookup_insert_ne by assumption. apply Hflat.
Qed.

(** X6: in a cache directory that holds regular files only, [setCached]
    succeeds exactly for the queries whose key has no slash and whose file
    name, the key with its suffix, has at most 255 bytes; for the others it
    throws, and the directory then stays as it was.  Either way the
    directory still holds regular files only. *)
Theorem setCached_flat query text w :
  flat_cache w ->
  (fst (setCached query text w) = Ok tt <->
   has_slash (cacheKey query) = false /\
   String.length (cacheKey query +:+ ".txt") <= 255)
  /\ (forall e, fst (setCached query text w) = Throw e ->
      snd (setCached query text w) = w /\
      (e = ENOENT \/ e = ENOTDIR \/ e = ENAMETOOLONG))
  /\ flat_cache (snd (setCached query text w)).
Proof.
  intros Hflat.
  destruct (setCached_flat_cases query text w Hflat) as (Hkeep & Hcases).
  rewrite <- unstorable_spec.
  destruct (unstorable query).
  - destruct Hcases as (Hsame & Hthrow).
    split; [| split; [| exact Hkeep]].
    + split; [| discriminate].
      intros Hok. destruct Hthrow as [H | [H | H]]; rewrite H in Hok;
        discriminate.
    + intros e He. split; [exact Hsame |].
      destruct Hthrow as [H | [H | H]]; rewrite H in He;
        injection He as <-; auto.
  - split; [| split; [| exact Hkeep]].
    + split; auto.
    + intros e He. rewrite Hcases in He. discriminate.
Qed.

Lemma setCached_flat_witness :
  (fst (setCached (js "a") (js "text") fresh) = Ok tt
     <-> has_slash (cacheKey (js "a")) = false /\
         String.length (cacheKey (js "a") +:+ ".txt") <= 255) /\
  (fst (setCached (js "???") (js "text") fresh) = Ok tt
     <-> has_slash (cacheKey (js "???")) = false /\
         String.length (cacheKey (js "???") +:+ ".txt") <= 255) /\
  (fst (setCached (replicate 200 97%Z) (js "text") fresh) = Ok tt
     <-> has_slash (cacheKey (replicate 200 97%Z)) = false /\
         String.length (cacheKey (replicate 200 97%Z) +:+ ".txt") <= 255).
Proof.
  split; [| split].
  - apply (setCached_flat (js "a") (js "text") fresh).
    apply flat_cache_empty. reflexivity.
  - apply (setCached_flat (js "???") (js "text") fresh).
    apply flat_cache_empty. reflexivity.
  - apply (setCached_flat (replicate 200 97%Z) (js "text") fresh).
    apply flat_cache_empty. reflexivity.
Defined.

(** A text of 200 letters has no slash in its key and cannot be stored:
    the name of its file has 272 bytes. *)
Example setCached_long_name :
  has_slash (cacheKey (replicate 200 97%Z)) = false /\
  String.length (cacheKey (replicate 200 97%Z) +:+ ".txt") = 272 /\
  setCached (replicate 200 97%Z) (js "text") fresh
    = (Throw ENAMETOOLONG, fresh) /\
  getCached (replicate 200 97%Z) fresh = (Ok None, fresh).
Proof. vm_compute. repeat split. Qed.

(** The longest description of letters that can be stored has 186 of
    them: its file name has 252 bytes, the next one 256. *)
Example name_length_limit :
  fst (setCached (replicate 186 97%Z) (js "text") fresh) = Ok tt /\
  fst (setCached (replicate 187 97%Z) (js "text") fresh)
    = Throw ENAMETOOLONG.
Proof. vm_compute. split; reflexivity. Qed.

(** In a directory of regular files, [getCached] does not throw. *)
Lemma getCached_flat query w :
  flat_cache w -> exists v, fst (getCached query w) = Ok v.
Proof.
  intros Hflat. rewrite getCached_resolve.
  destruct (cacheFile_segments query) as [_ Hne].
  destruct (cacheFile query) as [| a p]; [congruence |]. cbn.
  destruct (name_too_long a); [eauto |].
  destruct (cache w !! a) as [n |] eqn:Ha; [| eauto].
  destruct (Hflat a n Ha) as [data ->].
  destruct p; cbn; eauto.
Qed.

(** In a directory of regular files, a file that cannot be stored is not
    found. *)
Lemma getCached_unstorable query w :
  flat_cache w -> unstorable query = true ->
  fst (getCached query w) = Ok None.
Proof.
  intros Hflat Hu. rewrite getCached_resolve. unfold unstorable in Hu.
  pose proof (cacheFile_shape query) as Hshape.
  destruct (has_slash (cacheKey query)).
  - destruct Hshape as (a & b & rest & ->). cbn.
    destruct (name_too_long a); [reflexivity |].
    destruct (cache w !! a) as [n |] eqn:Ha; [| reflexivity].
    destruct (Hflat a n Ha) as [data ->]. reflexivity.
  - rewrite Hshape. cbn in Hu |- *. rewrite Hu. reflexivity.
Qed.

Lemma fetchCodeFromWeb_flat net sched description w :
  flat_cache w -> flat_cache (snd (fetchCodeFromWeb net sched description w)).
Proof.
  intros Hflat.
  destruct (getCached_cases description w)
    as [Hget | [Hget | [(text & Hne & Hget) | Hget]]].
  - rewrite fetchCodeFromWeb_miss by auto.
    destruct (fetch_from_network_spec net sched description
      (with_console [FetchingFromWeb] w)) as (w1 & Hc & _ & ->).
    assert (flat_cache w1) as H1 by (eapply flat_cache_same; eauto).
    destruct (selected net description) as [v |]; [| exact H1].
    pose proof (proj1 (setCached_flat_cases description v w1 H1)) as H2.
    destruct (setCached description v w1) as [[[] | e] w2]; exact H2.
  - rewrite fetchCodeFromWeb_miss by auto.
    destruct (fetch_from_network_spec net sched description
      (with_console [FetchingFromWeb] w)) as (w1 & Hc & _ & ->).
    assert (flat_cache w1) as H1 by (eapply flat_cache_same; eauto).
    destruct (selected net description) as [v |]; [| exact H1].
    pose proof (proj1 (setCached_flat_cases description v w1 H1)) as H2.
    destruct (setCached description v w1) as [[[] | e] w2]; exact H2.
  - rewrite (fetchCodeFromWeb_hit _ _ _ _ text) by assumption. exact Hflat.
  - rewrite (fetchCodeFromWeb_read_error _ _ _ _ EISDIR) by assumption.
    exact Hflat.
Qed.

Lemma run_flat events : forall w, flat_cache w -> flat_cache (snd (run events w)).
Proof.
  induction events as [| [net sched description |] events IH]; intros w Hw.
  - exact Hw.
  - cbn [run].
    pose proof (fetchCodeFromWeb_flat net sched description w Hw) as Hw'.
    destruct (fetchCodeFromWeb net sched description w) as [r w'].
    specialize (IH w' Hw'). destruct (run events w') as [rs w'']. exact IH.
  - cbn [run]. apply IH, flat_cache_empty. reflexivity.
Qed.

(** X7: as long as nothing but calls of [fetchCodeFromWeb] and interrupts
    touches the cache directory since its creation, the directory holds
    regular files only, and [getCached] returns without an error for every
    query. *)
Theorem getCached_never_throws_after_run events query :
  flat_cache (snd (run events fresh)) /\
  exists v, fst (getCached query (snd (run events fresh))) = Ok v.
Proof.
  assert (flat_cache (snd (run events fresh))) as H
    by (apply run_flat, flat_cache_empty; reflexivity).
  split; [exact H | apply getCached_flat, H].
Qed.

(** X8: in a cache directory that holds regular files only,
    [fetchCodeFromWeb] throws exactly when the file of the description
    cannot be stored, its key having a slash or its name more than 255
    bytes, and the web yields a valid snippet: such a description is never
    answered from the web, and never cached. *)
Theorem fetchCodeFromWeb_throws_iff net sched description w :
  flat_cache w ->
  ((exists e, fst (fetchCodeFromWeb net sched description w) = Throw e)
   <-> (has_slash (cacheKey description) = true \/
        255 < String.length (cacheKey description +:+ ".txt")) /\
       exists v, selected net description = Some v).
Proof.
  intros Hflat.
  assert (Hstor :
    has_slash (cacheKey description) = true \/
    255 < String.length (cacheKey description +:+ ".txt")
    <-> unstorable description = true).
  { pose proof (unstorable_spec description) as Hs.
    destruct (unstorable description).
    - split; [reflexivity |]. intros _.
      destruct (has_slash (cacheKey description)); [auto |]. right.
      destruct (Nat.le_gt_cases
        (String.length (cacheKey description +:+ ".txt")) 255) as [Hle | Hgt];
        [| exact Hgt].
      discriminate (proj2 Hs (conj eq_refl Hle)).
    - split; [| discriminate]. destruct (proj1 Hs eq_refl) as [H1 H2].
      intros [H | H]; [congruence | lia]. }
  rewrite Hstor.
  assert (Hnet :
    (exists e, fst (fetch_from_network net sched description
                      (with_console [FetchingFromWeb] w)) = Throw e)
    <-> unstorable description = true /\
        exists v, selected net description = Some v).
  { destruct (fetch_from_network_spec net sched description
      (with_console [FetchingFromWeb] w)) as (w1 & Hc & _ & ->).
    assert (flat_cache w1) as H1 by (eapply flat_cache_same; eauto).
    destruct (selected net description) as [v |].
    - destruct (setCached_flat_cases description v w1 H1) as (_ & Hcases).
      destruct (setCached description v w1) as [[[] | e] w2]; cbn in *.
      + split; [intros [e [=]] |]. intros [Hs _].
        rewrite Hs in Hcases.
        destruct Hcases as (_ & [H | [H | H]]); discriminate.
      + split; [| eauto]. intros _. split; [| eauto].
        destruct (unstorable description); [reflexivity | discriminate].
    - cbn. split; [intros [e [=]] | intros [_ [v [=]]]]. }
  destruct (getCached_cases description w)
    as [Hget | [Hget | [(text & Hne & Hget) | Hget]]].
  - rewrite fetchCodeFromWeb_miss by auto. exact Hnet.
  - rewrite fetchCodeFromWeb_miss by auto. exact Hnet.
  - rewrite (fetchCodeFromWeb_hit _ _ _ _ text) by assumption. cbn.
    split; [intros [e [=]] |]. intros [Hs _]. exfalso.
    (* a hit means the file is there, so it could be stored *)
    rewrite (getCached_unstorable description w Hflat Hs) in Hget.
    discriminate.
  - destruct (getCached_flat description w Hflat) as [v Hv]. congruence.
Qed.

Lemma fetchCodeFromWeb_throws_iff_witness :
  ((exists e,
      fst (fetchCodeFromWeb three_results [] (js "???") fresh) = Throw e)
   <-> (has_slash (cacheKey (js "???")) = true \/
        255 < String.length (cacheKey (js "???") +:+ ".txt")) /\
       exists v, selected three_results (js "???") = Some v) /\
  ((exists e,
      fst (fetchCodeFromWeb three_results [] (replicate 200 97%Z) fresh)
        = Throw e)
   <-> (has_slash (cacheKey (replicate 200 97%Z)) = true \/
        255 < String.length (cacheKey (replicate 200 97%Z) +:+ ".txt")) /\
       exists v, selected three_results (replicate 200 97%Z) = Some v).
Proof.
  split; apply fetchCodeFromWeb_throws_iff, flat_cache_empty; reflexivity.
Defined.

(** * The extractor, attempt by attempt *)


Section ExtractorRetry.
Variable net : network.
Variable retries : nat.
Variable k : nat.
Variable url : link.

Local Abbreviation loop := (fetchCodeSnippet_loop net k url retries).
Local Abbreviation outcome := (page_outcome net k url).

Lemma page_requests_n_S n :
  page_requests_n net url (S n) = page_requests net url ++ page_requests_n net url n.
Proof. reflexivity. Qed.

Lemma with_requests_requests rs rs' w :
  with_requests rs' (with_requests rs w) = with_requests (rs ++ rs') w.
Proof. unfold with_requests. cbn. rewrite app_assoc. reflexivity. Qed.

Lemma with_console_with_requests ms rs w :
  with_requests rs (with_console ms w) = with_console ms (with_requests rs w).
Proof. reflexivity. Qed.

(** No attempt from [i] on finds code. *)
Lemma snippet_loop_no_code n : forall i w,
  i + n = S retries ->
  (forall j, i <= j <= retries -> no_code (outcome j) = true) ->
  loop n i w =
  (Ok [],
   with_console
     (if failed (outcome retries) && negb (Nat.eqb n 0)
      then [SnippetFailed url] else [])
     (with_requests (page_requests_n net url n) w)).
Proof.
  induction n as [| n IH]; intros i w Hi Hno.
  - cbn [fetchCodeSnippet_loop ret Nat.eqb negb]. rewrite andb_false_r.
    unfold page_requests_n. cbn.
    rewrite with_requests_nil, with_console_nil. reflexivity.
  - rewrite snippet_loop_S. cbv zeta.
    pose proof (Hno i ltac:(lia)) as Hi0.
    cbn [Nat.eqb negb]. rewrite andb_true_r.
    assert (loop n (S i) (after_attempt net retries k url i
              (with_requests (page_requests net url) w)) =
            (Ok [], with_console
               (if failed (outcome retries) then [SnippetFailed url] else [])
               (with_requests (page_requests_n net url (S n)) w))) as Hrec.
    { destruct (Nat.eqb_spec i retries) as [-> | Hne].
      - assert (n = 0) as -> by lia. cbn [fetchCodeSnippet_loop ret].
        unfold after_attempt. rewrite Nat.eqb_refl, andb_true_r.
        unfold page_requests_n. cbn. rewrite app_nil_r. reflexivity.
      - destruct n as [| n]; [lia |].
        rewrite IH; [| lia | intros; apply Hno; lia].
        cbn [Nat.eqb negb]. rewrite andb_true_r.
        unfold after_attempt.
        assert (Nat.eqb i retries = false) as -> by (apply Nat.eqb_neq; lia).
        rewrite andb_false_r, with_console_nil, with_requests_requests,
          <- page_requests_n_S. reflexivity. }
    destruct (outcome i) as [e | [| c cs]]; [exact Hrec | | discriminate].
    cbn [snippet_of nonempty]. exact Hrec.
Qed.

(** Attempt [i + m] is the first from [i] on that finds code. *)
Lemma snippet_loop_first_code m : forall n i w codes,
  i + n = S retries -> i + m <= retries ->
  (forall j, i <= j < i + m -> no_code (outcome j) = true) ->
  outcome (i + m) = Yields codes -> nonempty codes = true ->
  loop n i w =
  (Ok (take 5000 (join codes)),
   with_requests (page_requests_n net url (S m)) w).
Proof.
  induction m as [| m IH]; intros n i w codes Hi Hk Hno Hyes Hne;
    (destruct n as [| n]; [lia |]); rewrite snippet_loop_S; cbv zeta.
  - rewrite Nat.add_0_r in Hyes. rewrite Hyes. unfold snippet_of.
    rewrite Hne. unfold after_attempt. rewrite Hyes. cbn [failed andb].
    rewrite with_console_nil. unfold page_requests_n. cbn.
    rewrite app_nil_r. reflexivity.
  - pose proof (Hno i ltac:(lia)) as Hi0.
    assert (loop n (S i) (after_attempt net retries k url i
              (with_requests (page_requests net url) w)) =
            (Ok (take 5000 (join codes)),
             with_requests (page_requests_n net url (S (S m))) w)) as Hrec.
    { rewrite (IH n (S i) _ codes); [| lia | lia | intros; apply Hno; lia
        | rewrite <- Hyes; f_equal; lia | exact Hne].
      unfold after_attempt.
      assert (Nat.eqb i retries = false) as -> by (apply Nat.eqb_neq; lia).
      rewrite andb_false_r, with_console_nil, with_requests_requests,
        <- page_requests_n_S. reflexivity. }
    destruct (outcome i) as [e | [| c cs]]; [exact Hrec | | discriminate].
    cbn [snippet_of nonempty]. exact Hrec.
Qed.

Lemma page_requests_n_length n :
  length (page_requests_n net url n) <= n.
Proof.
  induction n as [| n IH]; [reflexivity |].
  rewrite page_requests_n_S, length_app.
  unfold page_requests. destruct (target net url); cbn; lia.
Qed.

(** The loop sends at most one request for each iteration. *)
Lemma snippet_loop_requests n : forall i w,
  length (requests (snd (loop n i w))) <= length (requests w) + n.
Proof.
  induction n as [| n IH]; intros i w; [cbn; lia |].
  rewrite snippet_loop_S. cbv zeta.
  assert (length (requests (after_attempt net retries k url i
            (with_requests (page_requests net url) w)))
          <= length (requests w) + 1) as H1.
  { cbn. rewrite length_app. unfold page_requests. destruct (target net url); cbn; lia. }
  assert (length (requests (snd (loop n (S i)
            (after_attempt net retries k url i
               (with_requests (page_requests net url) w)))))
          <= length (requests w) + S n) as Hrec.
  { etrans; [apply IH |]. lia. }
  destruct (outcome i) as [e | codes]; [exact Hrec |].
  destruct (snippet_of codes); [cbn [snd]; lia | exact Hrec].
Qed.
End ExtractorRetry.

(** X9: [fetchCodeSnippet] returns, with at most 5000 characters, never
    throws, and sends at most [retries + 1] requests; the first attempt
    that finds a matching element ends it at once with the first 5000
    characters of the texts joined by newlines, and nothing is logged; when
    no attempt finds one the result is the empty string, and the failure
    message is logged once if the final attempt threw, and not at all
    otherwise.  Each attempt sends one request when [fetch] takes the link
    for a URL; when it does not, the link being [undefined] or a string
    that is no absolute URL, every attempt throws before anything is sent:
    the result is the empty string, with the failure message and without a
    request. *)
Theorem fetchCodeSnippet_retry net k url retries w :
  (exists text w',
     fetchCodeSnippet net k url retries w = (Ok text, w') /\
     length text <= 5000 /\ cache w' = cache w /\
     length (requests w') <= length (requests w) + S retries) /\
  (forall j codes,
     j <= retries ->
     (forall i, i < j -> no_code (page_outcome net k url i) = true) ->
     page_outcome net k url j = Yields codes -> nonempty codes = true ->
     fetchCodeSnippet net k url retries w =
       (Ok (take 5000 (join codes)),
        with_requests (page_requests_n net url (S j)) w)) /\
  ((forall i, i <= retries -> no_code (page_outcome net k url i) = true) ->
   fetchCodeSnippet net k url retries w =
     (Ok [],
      with_console
        (if failed (page_outcome net k url retries)
         then [SnippetFailed url] else [])
        (with_requests (page_requests_n net url (S retries)) w))) /\
  (target net url = None ->
   fetchCodeSnippet net k url retries w =
     (Ok [], with_console [SnippetFailed url] w)).
Proof.
  unfold fetchCodeSnippet. split; [| split; [| split]].
  - destruct (snippet_loop_returns net retries k url (S retries) 0 w)
      as (w' & H & Hc).
    pose proof (snippet_loop_requests net retries k url (S retries) 0 w) as Hr.
    rewrite H in Hr. eexists _, w'. split; [exact H |].
    split; [apply extracted_from_length |]. split; [exact Hc | exact Hr].
  - intros j codes Hj Hno Hyes Hne.
    apply (snippet_loop_first_code net retries k url j (S retries) 0);
      [lia | lia | intros; apply Hno; lia | exact Hyes | exact Hne].
  - intros Hno. rewrite snippet_loop_no_code; [| lia | intros; apply Hno; lia].
    cbn [Nat.eqb negb]. rewrite andb_true_r. reflexivity.
  - intros Ht.
    assert (forall i, page_outcome net k url i = Fails TypeError) as Hout
      by (intros i; unfold page_outcome; rewrite Ht; reflexivity).
    assert (forall n, page_requests_n net url n = []) as Hreq.
    { intros n. unfold page_requests_n, page_requests. rewrite Ht.
      induction n as [| n IH]; [reflexivity | exact IH]. }
    rewrite snippet_loop_no_code;
      [| lia | intros i _; rewrite Hout; reflexivity].
    rewrite Hout, Hreq, with_requests_nil.
    cbn [Nat.eqb negb failed]. rewrite andb_true_r. reflexivity.
Qed.

Lemma fetchCodeSnippet_retry_witness :
  fetchCodeSnippet flaky_page 0 (Some (js "u")) 1 fresh =
    (Ok (js "let a;" ++ 10%Z :: js "let b;"),
     World ∅ [] [PageRequest (js "u"); PageRequest (js "u")]) /\
  fetchCodeSnippet unreachable 0 (Some (js "u")) 1 fresh =
    (Ok [], World ∅ [SnippetFailed (Some (js "u"))]
              [PageRequest (js "u"); PageRequest (js "u")]) /\
  fetchCodeSnippet empty_code_page 0 (Some (js "u")) 1 fresh =
    (Ok [], World ∅ [] [PageRequest (js "u")]) /\
  fetchCodeSnippet relative_links 0 (Some (js "/page")) 1 fresh =
    (Ok [], World ∅ [SnippetFailed (Some (js "/page"))] []).
Proof.
  split; [| split; [| split]].
  - refine (eq_trans (proj1 (proj2
      (fetchCodeSnippet_retry flaky_page 0 (Some (js "u")) 1 fresh))
      1 [js "let a;"; js "let b;"] _ _ _ _) _).
    + lia.
    + intros [| i] Hi; [reflexivity | lia].
    + reflexivity.
    + reflexivity.
    + reflexivity.
  - refine (eq_trans (proj1 (proj2 (proj2
      (fetchCodeSnippet_retry unreachable 0 (Some (js "u")) 1 fresh))) _) _).
    + intros i _. reflexivity.
    + reflexivity.
  - refine (eq_trans (proj1 (proj2
      (fetchCodeSnippet_retry empty_code_page 0 (Some (js "u")) 1 fresh))
      0 [[]] _ _ _ _) _).
    + lia.
    + intros i Hi. lia.
    + reflexivity.
    + reflexivity.
    + reflexivity.
  - refine (eq_trans (proj2 (proj2 (proj2
      (fetchCodeSnippet_retry relative_links 0 (Some (js "/page")) 1 fresh)))
      _) _).
    + reflexivity.
    + reflexivity.
Defined.

Lemma join_length codes :
  length (join codes) = sum_list (length <$> codes) + (length codes - 1).
Proof.
  induction codes as [| c [| d r] IH]; [reflexivity | cbn; lia |].
  change (join (c :: d :: r)) with (c ++ 10%Z :: join (d :: r)).
  rewrite length_app. cbn [length]. rewrite IH. cbn. lia.
Qed.

(** X10: the snippet made of the elements of a page is a prefix of their
    texts joined by single newlines, cut at 5000 characters: its length is
    the smaller of 5000 and the sum of the lengths plus one for each
    element but the first. *)
Theorem snippet_of_truncates codes text :
  snippet_of codes = Some text ->
  text `prefix_of` join codes /\
  length text =
    Nat.min 5000 (sum_list (length <$> codes) + (length codes - 1)).
Proof.
  unfold snippet_of. destruct (nonempty codes); [| discriminate].
  intros [= <-]. split; [apply prefix_take |].
  rewrite length_take, join_length. reflexivity.
Qed.

Lemma snippet_of_truncates_witness :
  length (take 5000 (join [replicate 3000 97%Z; replicate 3000 98%Z])) =
    Nat.min 5000 (sum_list (length <$> [replicate 3000 97%Z;
                                         replicate 3000 98%Z]) + (2 - 1)).
Proof.
  apply (snippet_of_truncates [replicate 3000 97%Z; replicate 3000 98%Z]).
  reflexivity.
Defined.

(** X11: whatever the order in which the extractions of a fan-out advance,
    [Promise.all] resolves, with at each index the very snippet
    [fetchCodeSnippet] returns for the URL at that index when it runs
    alone; two runs under two schedules resolve with the same array. *)
Theorem fan_out_schedule_independent net retries sched1 sched2 urls w1 w2 :
  fst (fan_out net retries sched1 urls w1) =
    Ok (imap (fun k url =>
                returned [] (fetchCodeSnippet net k url retries fresh)) urls)
  /\ fst (fan_out net retries sched1 urls w1)
     = fst (fan_out net retries sched2 urls w2)
  /\ cache (snd (fan_out net retries sched1 urls w1)) = cache w1.
Proof.
  destruct (fan_out_values net retries sched1 urls w1) as (w1' & -> & Hc & _).
  destruct (fan_out_values net retries sched2 urls w2) as (w2' & -> & _).
  repeat split. exact Hc.
Qed.

(** * The traffic of a call *)


Lemma task_step_requests net retries k t w t' w' :
  task_step net retries k t w = (Ok t', w') ->
  length (requests w') + budget retries t'
    <= length (requests w) + budget retries t.
Proof.
  unfold task_step, budget.
  destruct t as [url i [v |]]; cbn [task_value task_url task_attempt].
  { intros [= <- <-]. cbn. lia. }
  unfold bind at 1. rewrite page_settle_catch.
  assert (Hnext : forall w0,
    length (requests w0) = length (requests w) ->
    (if Nat.ltb i retries
     then page_send net url ;; ret (Task url (S i) None)
     else ret (Task url i (Some []))) w0 = (Ok t', w') ->
    length (requests w') +
      match task_value t' with
      | Some _ => 0
      | None => retries - task_attempt t'
      end <= length (requests w) + (retries - i)).
  { intros w0 H0. destruct (Nat.ltb_spec i retries) as [Hlt | Hge].
    - unfold bind. rewrite page_send_world. intros [= <- <-]. cbn.
      rewrite length_app, H0. unfold page_requests. destruct (target net url); cbn; lia.
    - intros [= <- <-]. cbn. lia. }
  unfold after_attempt, with_console.
  destruct (page_outcome net k url i) as [e | codes];
    [apply Hnext; reflexivity |].
  destruct (snippet_of codes) as [text |]; [| apply Hnext; reflexivity].
  intros [= <- <-]. cbn. lia.
Qed.

Lemma sum_list_fmap_insert {A} (f : A -> nat) (l : list A) j x y :
  l !! j = Some x ->
  sum_list (f <$> <[j:=y]> l) + f x = sum_list (f <$> l) + f y.
Proof.
  revert j. induction l as [| a l IH]; intros [| j] H; try discriminate.
  - injection H as ->. simpl. lia.
  - simpl in H |- *. specialize (IH j H). unfold fmap in IH. lia.
Qed.

Lemma run_schedule_requests net retries sched : forall ts w,
  Forall (task_ok retries) ts ->
  match run_schedule net retries sched ts w with
  | (Ok ts', w') =>
      length (requests w') + sum_list (budget retries <$> ts')
        <= length (requests w) + sum_list (budget retries <$> ts)
  | (Throw _, _) => True
  end.
Proof.
  induction sched as [| j sched IH]; intros ts w Hok; [cbn; lia |].
  cbn [run_schedule].
  destruct (ts !! j) as [tj |] eqn:Hj; [| apply IH, Hok].
  assert (task_ok retries tj) as Hoj by (eapply Forall_lookup_1; eassumption).
  destruct (task_step_spec net retries j tj w Hoj)
    as (tj' & w1 & Hs & _ & _ & Hoj' & _).
  unfold bind at 1. rewrite Hs.
  pose proof (task_step_requests _ _ _ _ _ _ _ Hs) as H1.
  pose proof (sum_list_fmap_insert (budget retries) ts j tj tj' Hj) as H2.
  specialize (IH (<[j:=tj']> ts) w1 (Forall_insert _ _ _ _ Hok Hoj')).
  destruct (run_schedule net retries sched (<[j:=tj']> ts) w1)
    as [[ts' | e] w']; [lia | exact I].
Qed.

Lemma start_tasks_requests net urls : forall w,
  length (requests (snd (start_tasks net urls w)))
    <= length (requests w) + length urls.
Proof.
  induction urls as [| url urls IH]; intros w; [cbn; lia |].
  cbn [start_tasks]. unfold bind at 1. rewrite page_send_world.
  specialize (IH (with_requests (page_requests net url) w)).
  destruct (start_tasks_spec net urls (with_requests (page_requests net url) w))
    as (w' & H & _). rewrite H in IH. unfold bind at 1. rewrite H.
  cbn in IH |- *. rewrite length_app in IH.
  unfold page_requests in IH. destruct (target net url); cbn in IH; lia.
Qed.

(** A fan-out sends at most [retries + 1] requests for each URL. *)
Lemma fan_out_requests net retries sched urls w :
  length (requests (snd (fan_out net retries sched urls w)))
    <= length (requests w) + S retries * length urls.
Proof.
  unfold fan_out.
  pose proof (start_tasks_requests net urls w) as H0.
  destruct (start_tasks_spec net urls w) as (w0 & Hs & _). rewrite Hs in H0.
  unfold bind at 1. rewrite Hs.
  set (ts := (fun url => Task url 0 None) <$> urls).
  assert (Forall (task_ok retries) ts) as Hok.
  { apply Forall_fmap, Forall_forall. intros url _ _. cbn. lia. }
  pose proof (run_schedule_requests net retries
    (sched ++ drain retries (length urls)) ts w0 Hok) as Hr.
  destruct (run_schedule_spec net retries
    (sched ++ drain retries (length urls)) ts w0 Hok) as (ts' & w' & Hrun & _).
  rewrite Hrun in Hr. unfold bind at 1. rewrite Hrun. cbn [snd ret] in *.
  assert (sum_list (budget retries <$> ts) = retries * length urls) as Hb.
  { unfold ts. clear. induction urls as [| u urls IH]; cbn; [lia |].
    rewrite IH. unfold budget. cbn. lia. }
  lia.
Qed.

Lemma search_links_length net description :
  length (search_links net description) <= 5.
Proof.
  unfold search_links, returned, fetchDuckDuckGo.
  destruct (loop_returns net (description ++ search_suffix) 2 3 0 fresh)
    as (links & m & ms & -> & Hl & _). exact Hl.
Qed.

(** X12: a call of [fetchCodeFromWeb] sends at most 13 requests: three for
    the search, and two for each of at most five result links. *)
Theorem fetchCodeFromWeb_request_bound net sched description w :
  length (requests (snd (fetchCodeFromWeb net sched description w)))
    <= length (requests w) + 13.
Proof.
  assert (Hnet : forall w0,
    length (requests w0) = length (requests w) ->
    length (requests (snd (fetch_from_network net sched description w0)))
      <= length (requests w) + 13).
  { intros w0 H0. unfold fetch_from_network.
    destruct (fetchDuckDuckGo_returns net (description ++ search_suffix) 2 w0)
      as (m' & ms' & Hs' & _).
    fold (search_links net description) in Hs'.
    destruct (loop_returns net (description ++ search_suffix) 2 3 0 w0)
      as (links & m & ms & Hs & _ & Hm & _).
    change (fetchDuckDuckGo_loop net (description ++ search_suffix) 2 3 0 w0)
      with (fetchDuckDuckGo net (description ++ search_suffix) 2 w0) in Hs.
    rewrite Hs' in Hs. apply (f_equal snd) in Hs. cbn [snd] in Hs.
    rename Hs into Hw.
    unfold bind at 1. rewrite Hs'.
    set (w1 := with_console ms'
      (with_requests (search_requests (description ++ search_suffix) m') w0))
      in *.
    assert (length (requests w1) <= length (requests w) + 3) as H1.
    { rewrite Hw. unfold search_requests. cbn.
      destruct (well_formed _); rewrite length_app; cbn;
        rewrite ?length_replicate; lia. }
    pose proof (fan_out_requests net 1 sched (search_links net description) w1)
      as H2.
    pose proof (search_links_length net description) as H5.
    destruct (fan_out_values net 1 sched (search_links net description) w1)
      as (w2 & Hf & _). rewrite Hf in H2. unfold bind at 1. rewrite Hf.
    cbn [snd] in H2.
    destruct (List.find valid_snippet _) as [v |]; [| cbn; lia].
    destruct (truthy v); [| cbn; lia]. unfold bind, ret.
    destruct (setCached description v w2) as [[[] | e] w3] eqn:Hset; cbn [snd].
    - apply setCached_ok in Hset as (_ & _ & ->). lia.
    - apply setCached_throw in Hset as ->. lia. }
  destruct (getCached_cases description w)
    as [Hget | [Hget | [(text & Hne & Hget) | Hget]]].
  - rewrite fetchCodeFromWeb_miss by auto. apply Hnet. reflexivity.
  - rewrite fetchCodeFromWeb_miss by auto. apply Hnet. reflexivity.
  - rewrite (fetchCodeFromWeb_hit _ _ _ _ text) by assumption. cbn. lia.
  - rewrite (fetchCodeFromWeb_read_error _ _ _ _ EISDIR) by assumption.
    cbn. lia.
Qed.

(** The bound is reached. *)
Example thirteen_requests :
  length (requests (snd (fetchCodeFromWeb worst_case [] (js "a") fresh))) = 13.
Proof. vm_compute. reflexivity. Qed.

(** X13: after a call that returned a text that is not empty, the next call
    for the same description, whatever the network then does, sends no
    request and returns a text of the same length, which is the same text
    when that text is well formed. *)
Theorem second_call_from_cache net sched net' sched' description w text :
  fst (fetchCodeFromWeb net sched description w) = Ok text ->
  truthy text = true ->
  let w' := snd (fetchCodeFromWeb net sched description w) in
  exists text',
    fetchCodeFromWeb net' sched' description w' =
      (Ok text', with_console [FetchingFromWeb; UsingCached] w') /\
    length text' = length text /\
    (well_formed text = true -> text' = text).
Proof.
  intros Hret Htext w'. subst w'.
  destruct (getCached_cases description w)
    as [Hget | [Hget | [(cached & Hne & Hget) | Hget]]].
  - rewrite (fetchCodeFromWeb_miss net sched description w) in Hret |- *
      by auto.
    destruct (fetch_from_network_spec net sched description
      (with_console [FetchingFromWeb] w)) as (w1 & Hc & _ & Hnet).
    rewrite Hnet in Hret |- *.
    destruct (selected net description) as [v |];
      [| cbn in Hret; injection Hret as <-; discriminate Htext].
    destruct (setCached description v w1) as [[[] | e] w2] eqn:Hset;
      [| discriminate]. cbn [fst snd] in *. injection Hret as ->.
    pose proof (getCached_setCached _ _ _ _ Hset) as Hget2.
    exists (to_well_formed text). split; [| split].
    + apply fetchCodeFromWeb_hit; [rewrite Hget2; reflexivity |].
      pose proof (length_to_well_formed text) as Hl.
      destruct text; [discriminate |].
      destruct (to_well_formed (z :: text)); [discriminate | reflexivity].
    + apply length_to_well_formed.
    + apply to_well_formed_id.
  - rewrite (fetchCodeFromWeb_miss net sched description w) in Hret |- *
      by auto.
    destruct (fetch_from_network_spec net sched description
      (with_console [FetchingFromWeb] w)) as (w1 & Hc & _ & Hnet).
    rewrite Hnet in Hret |- *.
    destruct (selected net description) as [v |];
      [| cbn in Hret; injection Hret as <-; discriminate Htext].
    destruct (setCached description v w1) as [[[] | e] w2] eqn:Hset;
      [| discriminate]. cbn [fst snd] in *. injection Hret as ->.
    pose proof (getCached_setCached _ _ _ _ Hset) as Hget2.
    exists (to_well_formed text). split; [| split].
    + apply fetchCodeFromWeb_hit; [rewrite Hget2; reflexivity |].
      pose proof (length_to_well_formed text) as Hl.
      destruct text; [discriminate |].
      destruct (to_well_formed (z :: text)); [discriminate | reflexivity].
    + apply length_to_well_formed.
    + apply to_well_formed_id.
  - rewrite (fetchCodeFromWeb_hit net sched description w cached)
      in Hret |- * by assumption.
    cbn [fst snd] in *. injection Hret as ->.
    exists text. split; [| split; reflexivity].
    apply fetchCodeFromWeb_hit; [| assumption].
    rewrite <- Hget. apply getCached_cache. reflexivity.
  - rewrite (fetchCodeFromWeb_read_error _ _ _ _ EISDIR) in Hret by assumption.
    discriminate.
Qed.

Lemma second_call_from_cache_witness :
  exists text',
    fetchCodeFromWeb unreachable [] (js "a")
      (snd (fetchCodeFromWeb three_results [2; 0] (js "a") fresh)) =
      (Ok text', with_console [FetchingFromWeb; UsingCached]
         (snd (fetchCodeFromWeb three_results [2; 0] (js "a") fresh))) /\
    length text' = length (replicate 300 98%Z) /\
    (well_formed (replicate 300 98%Z) = true -> text' = replicate 300 98%Z).
Proof.
  apply (second_call_from_cache three_results [2; 0] unreachable []
           (js "a") fresh (replicate 300 98%Z)).
  - vm_compute. reflexivity.
  - reflexivity.
Defined.

Lemma run_schedule_nil net retries sched : forall w,
  run_schedule net retries sched [] w = (Ok [], w).
Proof. induction sched as [| j sched IH]; intros w; [reflexivity | apply IH]. Qed.

Lemma fan_out_nil net retries sched w :
  fan_out net retries sched [] w = (Ok [], w).
Proof.
  unfold fan_out. cbn [start_tasks]. unfold bind, ret.
  rewrite run_schedule_nil. reflexivity.
Qed.

(** X14: a description that is not well formed is never searched:
    [encodeURIComponent] throws at each of the three attempts before
    anything is sent.  When the cache has no text for it, the call sends
    no request, logs the failure of the search once, and returns the empty
    string. *)
Theorem ill_formed_description_not_searched net sched description w :
  well_formed (description ++ search_suffix) = false ->
  fst (getCached description w) = Ok None \/
  fst (getCached description w) = Ok (Some []) ->
  fetchCodeFromWeb net sched description w =
  (Ok [], with_console [FetchingFromWeb; SearchFailed] w).
Proof.
  intros Hwf Hmiss. rewrite fetchCodeFromWeb_miss by assumption.
  unfold fetch_from_network, fetchDuckDuckGo.
  unfold bind at 1.
  rewrite (loop_no_links net (description ++ search_suffix) 2 3 0);
    [| lia | intros j _; unfold search_outcome; rewrite Hwf; reflexivity].
  unfold search_outcome, search_requests. rewrite Hwf. cbn [failed andb negb Nat.eqb].
  rewrite with_requests_nil.
  unfold bind at 1. rewrite fan_out_nil.
  unfold ret, with_console. cbn. rewrite <- app_assoc. reflexivity.
Qed.

Lemma ill_formed_description_not_searched_witness :
  fetchCodeFromWeb three_results [0; 1] [0xD83D%Z] fresh =
  (Ok [], with_console [FetchingFromWeb; SearchFailed] fresh).
Proof.
  apply ill_formed_description_not_searched.
  - reflexivity.
  - left. reflexivity.
Defined.

(** * Parse description *)

Lemma matches_here_app word more text :
  matches_here (word ++ more) text = true -> matches_here word text = true.
Proof.
  revert text. induction word as [| p word IH]; intros text H; [reflexivity |].
  destruct text as [| c text]; [discriminate |]. cbn in H |- *.
  apply andb_true_iff in H as [-> H]. exact (IH _ H).
Qed.

Lemma regexp_test_app word more text :
  regexp_test (word ++ more) text = true -> regexp_test word text = true.
Proof.
  induction text as [| c text IH]; cbn; rewrite !orb_true_iff.
  - intros [H | H]; [left; eapply matches_here_app; exact H | discriminate].
  - intros [H | H]; [left; eapply matches_here_app; exact H | right; auto].
Qed.

Lemma regexp_test_plural word text :
  regexp_test word text || regexp_test (word ++ [115%Z]) text
  = regexp_test word text.
Proof.
  destruct (regexp_test word text) eqn:H; [reflexivity |]. cbn.
  destruct (regexp_test (word ++ [115%Z]) text) eqn:H'; [| reflexivity].
  apply regexp_test_app in H'. congruence.
Qed.

(** X15: the description has a route when it contains [route], in any mix
    of upper and lower case, and a controller when it contains
    [controller]; the alternatives [routes] and [controllers] of the two
    patterns never decide.  The pages are [dashboard] and [login], in this
    order, each when the description contains it. *)
Theorem parseDescription_words description :
  routes (parseDescription description) =
    (if regexp_test (js "route") description then ["example"] else []) /\
  controllers (parseDescription description) =
    (if regexp_test (js "controller") description then ["main"] else []) /\
  pages (parseDescription description) =
    (if regexp_test (js "dashboard") description then ["dashboard"] else [])
    ++ (if regexp_test (js "login") description then ["login"] else []).
Proof.
  unfold parseDescription. cbn [routes controllers pages].
  change (js "routes") with (js "route" ++ [115%Z]).
  change (js "controllers") with (js "controller" ++ [115%Z]).
  rewrite !regexp_test_plural. repeat split.
  destruct (regexp_test (js "dashboard") description),
    (regexp_test (js "login") description); reflexivity.
Qed.

Lemma matches_here_fold word : forall text1 text2,
  fold_case <$> text1 = fold_case <$> text2 ->
  matches_here word text1 = matches_here word text2.
Proof.
  induction word as [| p word IH]; intros [| c1 t1] [| c2 t2] H;
    try reflexivity; try discriminate.
  cbn in H |- *. injection H as Hc Ht. rewrite Hc, (IH _ _ Ht). reflexivity.
Qed.

Lemma regexp_test_fold word : forall text1 text2,
  fold_case <$> text1 = fold_case <$> text2 ->
  regexp_test word text1 = regexp_test word text2.
Proof.
  induction text1 as [| c1 t1 IH]; intros [| c2 t2] H; try discriminate.
  - reflexivity.
  - cbn [regexp_test]. rewrite (matches_here_fold word _ _ H).
    injection H as _ Ht. rewrite (IH _ Ht). reflexivity.
Qed.

(** X16: two descriptions that differ only in the case of ASCII letters
    have the same structure. *)
Theorem parseDescription_case description1 description2 :
  fold_case <$> description1 = fold_case <$> description2 ->
  parseDescription description1 = parseDescription description2.
Proof.
  intros H. unfold parseDescription.
  rewrite !(regexp_test_fold _ _ _ H). reflexivity.
Qed.

Lemma parseDescription_case_witness :
  parseDescription (js "Login ROUTES") = parseDescription (js "login routes").
Proof. apply parseDescription_case. reflexivity. Defined.

Lemma regexp_test_context word before text after :
  regexp_test word text = true ->
  regexp_test word (before ++ text ++ after) = true.
Proof.
  intros H. induction before as [| c before IH].
  - cbn [app]. revert H. induction text as [| c text IH]; cbn [regexp_test app].
    + rewrite orb_false_r. destruct word; [| discriminate]. intros _.
      destruct after; reflexivity.
    + rewrite !orb_true_iff. intros [H | H]; [left | right; auto].
      clear IH. revert c text H.
      induction word as [| p word IHw]; intros c text H; [reflexivity |].
      cbn in H |- *. apply andb_true_iff in H as [-> H].
      destruct text as [| c' text]; [destruct word; [reflexivity | discriminate] |].
      cbn [app]. apply IHw, H.
  - cbn [app regexp_test]. rewrite IH. apply orb_true_r.
Qed.

(** X17: text put before or after a description takes nothing from its
    structure: what the description has, the longer text has too. *)
Theorem parseDescription_context before description after :
  routes (parseDescription description)
    `sublist_of` routes (parseDescription (before ++ description ++ after)) /\
  controllers (parseDescription description)
    `sublist_of`
    controllers (parseDescription (before ++ description ++ after)) /\
  pages (parseDescription description)
    `sublist_of` pages (parseDescription (before ++ description ++ after)).
Proof.
  unfold parseDescription. cbn [routes controllers pages].
  change (js "routes") with (js "route" ++ [115%Z]).
  change (js "controllers") with (js "controller" ++ [115%Z]).
  rewrite !regexp_test_plural.
  pose proof (fun word => regexp_test_context word before description after)
    as H.
  repeat split.
  - destruct (regexp_test (js "route") description) eqn:E;
      [rewrite (H _ E); reflexivity | apply sublist_nil_l].
  - destruct (regexp_test (js "controller") description) eqn:E;
      [rewrite (H _ E); reflexivity | apply sublist_nil_l].
  - destruct (regexp_test (js "dashboard") description) eqn:E1;
    destruct (regexp_test (js "login") description) eqn:E2;
    rewrite ?(H _ E1), ?(H _ E2);
    repeat match goal with
    | |- context [regexp_test ?word (before ++ description ++ after)] =>
        destruct (regexp_test word (before ++ description ++ after))
    end;
    cbn [app];
    solve [ reflexivity | apply sublist_nil_l
          | apply sublist_skip, sublist_nil_l
          | apply sublist_cons; reflexivity ].
Qed.

(** * The generator *)

Ltac run_generator :=
  unfold setupFramework, installDependencies, verifyEnvironment, safeExec,
    write, execa, ensureDir, emptyDir, when, gcatch, gbind, greturn, print,
    exit, attempt_action;
  cbn [retriever history fst snd].

Ltac split_failures fails :=
  repeat match goal with
  | |- context [fails ?h] =>
      let E := fresh "E" in destruct (fails h) eqn:E; cbn [retriever history]
  end.

Ltac in_cases :=
  repeat match goal with
  | H : _ \/ _ |- _ => destruct H as [H | H]
  | H : False |- _ => destruct H
  end.

Lemma added_app s h w : added s (System w (history s ++ h)) = h.
Proof. unfold added. cbn. apply drop_app_length. Qed.

(** What [setupFramework] has done after the line that announces it:
    nothing but to say that the framework is not implemented; or a write
    that failed, then the line of the failure; or writes that succeeded
    and commands. *)
Lemma setupFramework_shape fails framework s :
  exists rest,
    setupFramework fails framework s =
      (Returns tt,
       System (retriever s)
         (history s ++ Print (SettingUp framework) :: rest)) /\
    (rest = [Print (NotImplemented framework)] \/
     (exists p c,
        rest = [WriteFile p c; Print (SetupFailed framework)] /\
        fails (history s ++ [Print (SettingUp framework); WriteFile p c])
          = true) \/
     (~ In (Print (SetupFailed framework)) rest /\
      ~ In (Print (NotImplemented framework)) rest /\
      commands_in rest <> [] /\
      forall p c, In (WriteFile p c) rest ->
        fails (history s ++ [Print (SettingUp framework); WriteFile p c])
          = false)).
Proof.
  unfold setupFramework.
  repeat match goal with
  | |- context [String.eqb ?a ?b] => destruct (String.eqb a b)
  end;
  run_generator; rewrite <- ?app_assoc; cbn [app];
  split_failures fails; rewrite <- ?app_assoc; cbn [app];
  eexists; (split; [reflexivity |]);
  first
    [ left; reflexivity
    | right; left; eexists _, _; split; [reflexivity | assumption]
    | right; right; cbn;
      repeat split; try discriminate;
      try (intros H; in_cases; discriminate);
      intros p c H; in_cases; try discriminate;
      match goal with
      | H : WriteFile _ _ = WriteFile _ _ |- _ =>
          injection H as <- <-; assumption
      end ].
Qed.

(** X18: [setupFramework] returns for every framework on every machine: a
    write or a command that fails is caught, and the retriever is left
    alone. *)
Theorem setupFramework_returns fails framework s :
  exists s',
    setupFramework fails framework s = (Returns tt, s') /\
    retriever s' = retriever s /\
    history s `prefix_of` history s'.
Proof.
  destruct (setupFramework_shape fails framework s) as (rest & -> & _).
  eexists. split; [reflexivity |]. split; [reflexivity |].
  apply prefix_app_r. reflexivity.
Qed.

(** X19: in [setupFramework] the failure of a write ends the setup: when
    the line of the failed setup is printed, a write has failed and no
    command was run.  The failure of a command ends nothing: when no write
    fails, that line is not printed. *)
Theorem setupFramework_failure fails framework s :
  let h := added s (snd (setupFramework fails framework s)) in
  (In (Print (SetupFailed framework)) h ->
   commands_in h = [] /\
   exists p c,
     In (WriteFile p c) h /\
     fails (history s ++ [Print (SettingUp framework); WriteFile p c]) = true)
  /\
  ((forall p c, In (WriteFile p c) h ->
      fails (history s ++ [Print (SettingUp framework); WriteFile p c])
        = false) ->
   ~ In (Print (SetupFailed framework)) h).
Proof.
  destruct (setupFramework_shape fails framework s) as (rest & -> & Hshape).
  cbn [snd]. rewrite added_app. cbv zeta.
  destruct Hshape as [-> | [(p & c & -> & Hf) | (Hno & _ & _ & Hw)]].
  - split.
    + intros H. cbn in H. in_cases; discriminate.
    + intros _ H. cbn in H. in_cases; discriminate.
  - split.
    + intros _. split; [reflexivity |]. exists p, c.
      split; [right; left; reflexivity | exact Hf].
    + intros H. specialize (H p c (or_intror (or_introl eq_refl))). congruence.
  - split.
    + intros [H | H]; [discriminate H | contradiction].
    + intros _ [H | H]; [discriminate H | contradiction].
Qed.

(** X20: of the fourteen frameworks of the menu, [setupFramework] does
    nothing but print that the framework is not implemented for exactly
    four: Sapper, AdonisJS, FeathersJS and LoopBack. *)
Theorem frameworks_not_implemented fails framework s :
  In framework frameworks ->
  (added s (snd (setupFramework fails framework s)) =
     [Print (SettingUp framework); Print (NotImplemented framework)]
   <-> In framework unimplemented).
Proof.
  intros Hin. cbn in Hin. in_cases; subst framework;
    unfold setupFramework; cbn [toLowerCase];
    repeat match goal with
    | |- context [String.eqb ?a ?b] =>
        let v := eval vm_compute in (String.eqb a b) in
        change (String.eqb a b) with v; cbv iota
    end;
    run_generator; split_failures fails;
    cbn [fst snd retriever history]; rewrite <- ?app_assoc; cbn [app];
    rewrite added_app;
    (split; [intros H | intros H; cbn in H; in_cases]);
    try discriminate;
    try (cbn; tauto).
Qed.

Lemma frameworks_not_implemented_witness :
  added boot (snd (setupFramework sound "Sapper" boot)) =
    [Print (SettingUp "Sapper"); Print (NotImplemented "Sapper")]
  <-> In "Sapper" unimplemented.
Proof.
  apply frameworks_not_implemented. vm_compute. tauto.
Defined.

(** ** Stages, and the optional dependencies *)


Section Mild.
Variable fails : machine.
Variable P : list action -> Prop.
Hypothesis P_nil : P [].
Hypothesis P_app : forall h1 h2, P h1 -> P h2 -> P (h1 ++ h2).

Lemma mild_return : mild P (greturn tt).
Proof.
  intros s. exists []. split; [exact P_nil |]. left.
  unfold greturn. rewrite app_nil_r. destruct s; reflexivity.
Qed.

Lemma mild_bind m k :
  mild P m -> mild P k -> mild P (gbind m (fun _ => k)).
Proof.
  intros Hm Hk s. unfold gbind.
  destruct (Hm s) as (h1 & H1 & [-> | ->]).
  - destruct (Hk (System (retriever s) (history s ++ h1)))
      as (h2 & H2 & [-> | ->]); cbn [retriever history];
      exists (h1 ++ h2); rewrite app_assoc; auto.
  - exists h1. auto.
Qed.

Lemma mild_when b m : mild P m -> mild P (when b m).
Proof. destruct b; [auto | intros _; apply mild_return]. Qed.

Lemma mild_attempt a :
  P [a] -> mild P (attempt_action fails a FsError).
Proof.
  intros Ha s. exists [a]. split; [exact Ha |].
  unfold attempt_action. destruct (fails _); auto.
Qed.

Lemma mild_print line : P [Print line] -> mild P (print line).
Proof.
  intros Ha s. exists [Print line]. split; [exact Ha |]. left. reflexivity.
Qed.
End Mild.

Lemma mild_weaken (P Q : list action -> Prop) m :
  (forall h, P h -> Q h) -> mild P m -> mild Q m.
Proof.
  intros HPQ Hm s. destruct (Hm s) as (h & Hh & H). exists h. auto.
Qed.

Lemma no_command_app h1 h2 :
  no_command h1 -> no_command h2 -> no_command (h1 ++ h2).
Proof.
  unfold no_command, commands_in. intros H1 H2.
  rewrite List.filter_app, H1, H2. reflexivity.
Qed.

Lemma no_write_app h1 h2 :
  no_write h1 -> no_write h2 -> no_write (h1 ++ h2).
Proof.
  unfold no_write, writes_in. intros H1 H2.
  rewrite List.filter_app, H1, H2. reflexivity.
Qed.

Lemma anything_app h1 h2 : anything h1 -> anything h2 -> anything (h1 ++ h2).
Proof. exact (fun _ _ => I). Qed.

Ltac mild_stages fails P P_nil P_app :=
  repeat first
    [ apply (mild_when P P_nil)
    | apply (mild_bind P P_app)
    | apply (mild_return P P_nil)
    | apply (mild_attempt fails P); reflexivity
    | apply (mild_print P); reflexivity ].

Lemma installEach_installs fails deps : forall s,
  exists h,
    installEach fails deps s
      = (Returns tt, System (retriever s) (history s ++ h)) /\
    commands_in h = npm_install <$> deps.
Proof.
  induction deps as [| dep deps IH]; intros s.
  - exists []. cbn. rewrite app_nil_r. destruct s. auto.
  - cbn [installEach]. run_generator.
    destruct (fails ((history s ++ [Print (Installing dep)]) ++
                [Execa (OnPath "npm") ["install"; dep] true])) eqn:E;
      cbn [retriever history].
    + destruct (IH (System (retriever s)
        (((history s ++ [Print (Installing dep)]) ++
            [Execa (OnPath "npm") ["install"; dep] true]) ++
           [Print (CommandFailed (OnPath "npm") ["install"; dep])])))
        as (h & -> & Hh). cbn [retriever history].
      exists ([Print (Installing dep); npm_install dep;
               Print (CommandFailed (OnPath "npm") ["install"; dep])] ++ h).
      rewrite <- !app_assoc. split; [reflexivity |].
      unfold commands_in in *. rewrite List.filter_app, Hh. reflexivity.
    + destruct (IH (System (retriever s)
        ((history s ++ [Print (Installing dep)]) ++
            [Execa (OnPath "npm") ["install"; dep] true])))
        as (h & -> & Hh). cbn [retriever history].
      exists ([Print (Installing dep); npm_install dep] ++ h).
      rewrite <- !app_assoc. split; [reflexivity |].
      unfold commands_in in *. rewrite List.filter_app, Hh. reflexivity.
Qed.

Lemma installs_bind m k s L :
  mild no_command m ->
  (forall s1, installs s1 L (k s1)) ->
  installs s L (gbind m (fun _ => k) s).
Proof.
  intros Hm Hk. unfold gbind.
  destruct (Hm s) as (h1 & H1 & [-> | ->]).
  - specialize (Hk (System (retriever s) (history s ++ h1))).
    unfold installs in *.
    destruct (k _) as [[[] | e | code] s']; cbn [history] in Hk.
    + destruct Hk as (h & -> & Hh). exists (h1 ++ h).
      rewrite app_assoc. split; [reflexivity |].
      unfold no_command, commands_in in *.
      rewrite List.filter_app, H1. exact Hh.
    + destruct Hk as (-> & h & -> & Hh). split; [reflexivity |].
      exists (h1 ++ h). rewrite app_assoc. split; [reflexivity |].
      unfold no_command, commands_in in *.
      rewrite List.filter_app, H1. exact Hh.
    + exact Hk.
  - cbn. split; [reflexivity |]. exists h1. auto.
Qed.

(** X21: [installDependencies] tries [npm install] for every selected
    dependency, in the order of the selection, whichever of these commands
    fail, provided the directories and files it first makes can be made;
    if one of them cannot, it throws before any command is run. *)
Theorem installDependencies_installs fails selectedDeps s :
  match installDependencies fails selectedDeps s with
  | (Returns _, s') =>
      commands_in (added s s') = npm_install <$> selectedDeps
  | (Throws e, s') => e = FsError /\ commands_in (added s s') = []
  | (Exits _, _) => False
  end.
Proof.
  assert (forall s, installs s (npm_install <$> selectedDeps)
            (installDependencies fails selectedDeps s)) as H.
  { clear s. intros s. unfold installDependencies.
    do 8 (apply installs_bind;
          [unfold ensureDir, write; cbn [ensureDirs];
           mild_stages fails no_command (eq_refl : no_command [])
             no_command_app |
           clear s; intros s]).
    unfold installs, gbind.
    destruct (installEach_installs fails selectedDeps s) as (h & -> & Hh).
    cbn. exists (h ++ [Print SelectedInstalled]).
    rewrite app_assoc. split; [reflexivity |].
    unfold commands_in in *. rewrite List.filter_app, Hh. cbn.
    apply app_nil_r. }
  specialize (H s). unfold installs in H.
  destruct (installDependencies fails selectedDeps s)
    as [[[] | e | code] s'].
  - destruct H as (h & Hs & Hh). unfold added. rewrite Hs, drop_app_length.
    exact Hh.
  - destruct H as (-> & h & Hs & Hh). split; [reflexivity |].
    unfold added. rewrite Hs, drop_app_length. exact Hh.
  - exact H.
Qed.

Lemma mild_safeExec fails command args inProject :
  mild anything (safeExec fails command args inProject).
Proof.
  intros s. run_generator. split_failures fails; eexists;
    (split; [exact I |]); left; rewrite <- ?app_assoc; reflexivity.
Qed.

Lemma mild_installEach fails deps : mild anything (installEach fails deps).
Proof.
  intros s. destruct (installEach_installs fails deps s) as (h & -> & _).
  exists h. split; [exact I | auto].
Qed.

Lemma mild_setupFramework fails framework :
  mild anything (setupFramework fails framework).
Proof.
  intros s. destruct (setupFramework_shape fails framework s) as (rest & -> & _).
  eexists. split; [exact I | auto].
Qed.

Lemma mild_installDependencies fails deps :
  mild anything (installDependencies fails deps).
Proof.
  unfold installDependencies, ensureDir, write. cbn [ensureDirs].
  repeat first
    [ apply mild_installEach
    | apply (mild_when anything I)
    | apply (mild_bind anything anything_app)
    | apply (mild_return anything I)
    | apply (mild_attempt fails anything); exact I
    | apply (mild_print anything); exact I ].
Qed.

Lemma mild_writeRoutes fails rs codeSnippet :
  mild no_command (writeRoutes fails rs codeSnippet).
Proof.
  induction rs as [| r rs IH]; cbn [writeRoutes]; unfold write.
  - apply mild_return. reflexivity.
  - apply (mild_bind no_command no_command_app); [| exact IH].
    apply mild_attempt. reflexivity.
Qed.

Lemma mild_writeControllers fails cs codeSnippet :
  mild no_command (writeControllers fails cs codeSnippet).
Proof.
  induction cs as [| c cs IH]; cbn [writeControllers]; unfold write.
  - apply mild_return. reflexivity.
  - apply (mild_bind no_command no_command_app); [| exact IH].
    apply mild_attempt. reflexivity.
Qed.

(** ** Main *)


Lemma step_print {A} line (k : unit -> G A) s :
  gbind (print line) k s
    = k tt (System (retriever s) (history s ++ [Print line])).
Proof. reflexivity. Qed.

Lemma step_attempt {A} fails a e (k : unit -> G A) s :
  gbind (attempt_action fails a e) k s =
    if fails (history s ++ [a])
    then (Throws e, System (retriever s) (history s ++ [a]))
    else k tt (System (retriever s) (history s ++ [a])).
Proof. unfold gbind, attempt_action. destruct (fails _); reflexivity. Qed.

Lemma step_catch {A} fails a e handler (k : unit -> G A) s :
  gbind (gcatch (attempt_action fails a e) handler) k s =
    if fails (history s ++ [a])
    then gbind (handler e) k (System (retriever s) (history s ++ [a]))
    else k tt (System (retriever s) (history s ++ [a])).
Proof.
  unfold gbind, gcatch, attempt_action. destruct (fails _); reflexivity.
Qed.

Lemma step_bind {A B C} (m : G A) (k : A -> G B) (k' : B -> G C) s :
  gbind (gbind m k) k' s = gbind m (fun x => gbind (k x) k') s.
Proof. unfold gbind. destruct (m s) as [[a | e | code] s']; reflexivity. Qed.

Lemma step_return {A B} (a : A) (k : A -> G B) s :
  gbind (greturn a) k s = k a s.
Proof. reflexivity. Qed.

Ltac main_step fails :=
  first
    [ rewrite step_return
    | rewrite step_print
    | rewrite step_bind
    | rewrite step_catch
    | rewrite step_attempt ];
  cbv beta; cbn [retriever history];
  try match goal with
  | |- context [if fails ?h then _ else _] =>
      let E := fresh "E" in destruct (fails h) eqn:E
  end.

(** How [main] goes up to the search for a snippet. *)
Lemma main_cases fails net sched given s :
  (fails (history s ++ node_check) = true /\
   main fails net sched given s =
     (Exits 1,
      System (retriever s) (history s ++ node_check ++ [Print NodeNotFound])))
  \/
  (fails (history s ++ node_check) = false /\
   exists h, no_write h /\
     (main fails net sched given s =
        (Throws FsError, System (retriever s) (history s ++ h))
      \/
      (In (EmptyDir []) h /\
       main fails net sched given s =
         gbind (lift (fetchCodeFromWeb net sched (description given)))
               (main_rest fails given)
               (System (retriever s) (history s ++ h))))).
Proof.
  unfold main, node_check, verifyEnvironment, ensureDir, emptyDir, execa.
  cbv zeta.
  destruct (nonempty (routes (parseDescription (description given))));
  destruct (nonempty (controllers (parseDescription (description given))));
  unfold when.
  all: rewrite step_print; cbv beta; cbn [retriever history].
  all: rewrite step_bind, step_catch; cbn [retriever history].
  all: rewrite <- !app_assoc; cbn [app].
  all: destruct (fails (history s ++ _)) eqn:E0;
    [left; split; [reflexivity |]; cbv beta; rewrite step_bind, step_print;
     unfold gbind, exit; cbn [retriever history];
     rewrite <- ?app_assoc; reflexivity
    | right; split; [reflexivity |]].
  all: repeat main_step fails.
  all: eexists; split; cycle 1.
  all: try (left; rewrite <- ?app_assoc; cbn [app]; reflexivity).
  all: try (right; split; cycle 1;
       [unfold gbind at 1, greturn; rewrite <- ?app_assoc; cbn [app]; reflexivity
       | cbn; tauto]).
  all: try reflexivity.
Qed.

Lemma mild_main_rest fails given text :
  mild anything (main_rest fails given text).
Proof.
  unfold main_rest. cbv zeta.
  apply (mild_bind anything anything_app).
  { eapply mild_weaken; [| apply mild_writeRoutes]. exact (fun _ _ => I). }
  apply (mild_bind anything anything_app).
  { eapply mild_weaken; [| apply mild_writeControllers]. exact (fun _ _ => I). }
  apply (mild_bind anything anything_app); [apply mild_setupFramework |].
  apply (mild_bind anything anything_app); [apply mild_installDependencies |].
  apply (mild_bind anything anything_app); apply mild_print; exact I.
Qed.

(** X22: [main] ends the process exactly when the check for Node.js
    fails: it then exits with code 1 having printed its first line and the
    line of the missing Node.js, and nothing of the project or of the
    cache is touched.  Nothing else ends the process: not the check for
    Python, not a failing command. *)
Theorem main_exits fails net sched given s :
  match main fails net sched given s with
  | (Exits code, s') =>
      fails (history s ++ node_check) = true /\
      code = 1%nat /\
      added s s' = node_check ++ [Print NodeNotFound] /\
      retriever s' = retriever s
  | _ => fails (history s ++ node_check) = false
  end.
Proof.
  destruct (main_cases fails net sched given s)
    as [(Hf & ->) | (Hf & h & _ & [-> | (_ & ->)])].
  - rewrite added_app. auto.
  - exact Hf.
  - unfold gbind, lift. cbn [retriever history].
    destruct (fetchCodeFromWeb _ _ _ _) as [[text | e] w]; [| exact Hf].
    destruct (mild_main_rest fails given text
                (System w (history s ++ h))) as (h' & _ & [-> | ->]);
      exact Hf.
Qed.

(** X23: an error of the cache store is fatal to [main].  When [main]
    throws such an error, it is the error [fetchCodeFromWeb] threw; by
    then the project directory has been emptied, and no file of the
    project has been written. *)
Theorem main_cache_error fails net sched given s e s' :
  main fails net sched given s = (Throws (CacheError e), s') ->
  fst (fetchCodeFromWeb net sched (description given) (retriever s))
    = Throw e /\
  In (EmptyDir []) (added s s') /\
  writes_in (added s s') = [].
Proof.
  destruct (main_cases fails net sched given s)
    as [(_ & ->) | (_ & h & Hh & [-> | (Hin & ->)])]; try discriminate.
  unfold gbind, lift. cbn [retriever history].
  destruct (fetchCodeFromWeb _ _ _ _) as [[text | e'] w].
  - destruct (mild_main_rest fails given text
                (System w (history s ++ h))) as (h' & _ & [-> | ->]);
      discriminate.
  - intros [= <- <-]. rewrite added_app. auto.
Qed.

Lemma main_cache_error_witness :
  let given := Answers "Express" "API" (js "???") [] in
  let s' := snd (main sound three_results [] given boot) in
  fst (fetchCodeFromWeb three_results [] (js "???") fresh) = Throw ENOENT /\
  In (EmptyDir []) (added boot s') /\
  writes_in (added boot s') = [].
Proof.
  cbv zeta.
  apply (main_cache_error sound three_results []
           (Answers "Express" "API" (js "???") []) boot ENOENT).
  vm_compute. reflexivity.
Defined.

Lemma writeRoutes_cases fails rs text s :
  writeRoutes fails rs text s =
    (Returns tt,
     System (retriever s)
       (history s ++
        ((fun route => WriteFile ["routes"; route +:+ ".js"]
                         (snippet_or text (RouteStub route))) <$> rs)))
  \/ exists h,
       writeRoutes fails rs text s =
         (Throws FsError, System (retriever s) (history s ++ h)).
Proof.
  revert s. induction rs as [| r rs IH]; intros s.
  - left. cbn. rewrite app_nil_r. destruct s; reflexivity.
  - cbn [writeRoutes]. unfold write. rewrite step_attempt.
    destruct (fails _).
    + right. eexists. reflexivity.
    + destruct (IH (System (retriever s)
        (history s ++ [WriteFile ["routes"; r +:+ ".js"]
                         (snippet_or text (RouteStub r))])))
        as [-> | (h & ->)]; cbn [retriever history].
      * left. rewrite <- app_assoc. reflexivity.
      * right. eexists. rewrite <- app_assoc. reflexivity.
Qed.

Lemma writeControllers_cases fails cs text s :
  writeControllers fails cs text s =
    (Returns tt,
     System (retriever s)
       (history s ++
        ((fun ctrl => WriteFile ["controllers"; ctrl +:+ ".js"]
                        (snippet_or text (ControllerStub ctrl))) <$> cs)))
  \/ exists h,
       writeControllers fails cs text s =
         (Throws FsError, System (retriever s) (history s ++ h)).
Proof.
  revert s. induction cs as [| c cs IH]; intros s.
  - left. cbn. rewrite app_nil_r. destruct s; reflexivity.
  - cbn [writeControllers]. unfold write. rewrite step_attempt.
    destruct (fails _).
    + right. eexists. reflexivity.
    + destruct (IH (System (retriever s)
        (history s ++ [WriteFile ["controllers"; c +:+ ".js"]
                         (snippet_or text (ControllerStub c))])))
        as [-> | (h & ->)]; cbn [retriever history].
      * left. rewrite <- app_assoc. reflexivity.
      * right. eexists. rewrite <- app_assoc. reflexivity.
Qed.

(** X24: when [main] returns, [fetchCodeFromWeb] has returned a text and
    the cache is as it left it; the file of every route and of every
    controller of the description has been written, with that text when
    it is not empty and with the stub of the route or controller when it
    is. *)
Theorem main_returns_written fails net sched given s s' :
  main fails net sched given s = (Returns tt, s') ->
  exists text,
    fetchCodeFromWeb net sched (description given) (retriever s)
      = (Ok text, retriever s') /\
    (forall route,
       In route (routes (parseDescription (description given))) ->
       In (WriteFile ["routes"; route +:+ ".js"]
             (if truthy text then Fetched text else RouteStub route))
          (added s s')) /\
    (forall ctrl,
       In ctrl (controllers (parseDescription (description given))) ->
       In (WriteFile ["controllers"; ctrl +:+ ".js"]
             (if truthy text then Fetched text else ControllerStub ctrl))
          (added s s')).
Proof.
  destruct (main_cases fails net sched given s)
    as [(_ & ->) | (_ & h & Hh & [-> | (Hin & ->)])]; try discriminate.
  unfold gbind at 1, lift. cbn [retriever history].
  destruct (fetchCodeFromWeb _ _ _ _) as [[text | e'] w]; [| discriminate].
  unfold main_rest. cbv zeta.
  set (s1 := System w (history s ++ h)).
  unfold gbind at 1.
  destruct (writeRoutes_cases fails
              (routes (parseDescription (description given))) text s1)
    as [-> | (h1 & ->)]; [| discriminate].
  unfold gbind at 1.
  match goal with
  | |- context [writeControllers fails ?cs text ?s2] =>
      destruct (writeControllers_cases fails cs text s2)
        as [-> | (h2 & ->)]; [| discriminate]
  end.
  cbn [retriever history].
  match goal with
  | |- ?m ?s3 = _ -> _ =>
      assert (mild anything m) as Hm
  end.
  { apply (mild_bind anything anything_app); [apply mild_setupFramework |].
    apply (mild_bind anything anything_app);
      [apply mild_installDependencies |].
    apply (mild_bind anything anything_app); apply mild_print; exact I. }
  match goal with
  | |- ?m ?s3 = _ -> _ =>
      destruct (Hm s3) as (h3 & _ & [-> | ->]); [| discriminate]
  end.
  cbn [retriever history]. intros [= <-]. exists text.
  split; [reflexivity |]. subst s1. cbn [retriever history].
  rewrite <- !app_assoc, added_app.
  split.
  - intros route Hr. apply in_or_app. right. apply in_or_app. left.
    apply (in_map (fun route => WriteFile ["routes"; route +:+ ".js"]
                     (snippet_or text (RouteStub route)))). exact Hr.
  - intros ctrl Hc. apply in_or_app. right. apply in_or_app. right.
    apply in_or_app. left.
    apply (in_map (fun ctrl => WriteFile ["controllers"; ctrl +:+ ".js"]
                     (snippet_or text (ControllerStub ctrl)))). exact Hc.
Qed.

Lemma main_returns_written_witness :
  let given := Answers "Express" "API" (js "routes and controllers")
                 ["redis"] in
  let s' := snd (main sound three_results [] given boot) in
  exists text,
    fetchCodeFromWeb three_results [] (js "routes and controllers") fresh
      = (Ok text, retriever s') /\
    (forall route,
       In route (routes (parseDescription (js "routes and controllers"))) ->
       In (WriteFile ["routes"; route +:+ ".js"]
             (if truthy text then Fetched text else RouteStub route))
          (added boot s')) /\
    (forall ctrl,
       In ctrl
         (controllers (parseDescription (js "routes and controllers"))) ->
       In (WriteFile ["controllers"; ctrl +:+ ".js"]
             (if truthy text then Fetched text else ControllerStub ctrl))
          (added boot s')).
Proof.
  cbv zeta.
  apply (main_returns_written sound three_results []
           (Answers "Express" "API" (js "routes and controllers") ["redis"])
           boot).
  vm_compute. reflexivity.
Defined.
